(** * Black-Scholes pricing engine and path simulator (greeks.py, simulation.py)

    A shallow embedding of the two Python modules and the properties the
    specification states about them.

    Numbers.  Python floats are read as real numbers: every arithmetic
    operation is its exact counterpart on [R], and equality of reals stands
    for equality of floats.  Rounding, overflow, infinities and NaN are not
    represented.  What IS represented is every place where Python raises
    instead of returning: true division by zero ([ZeroDivisionError]),
    [math.log] of a non-positive number and [math.sqrt] of a negative one
    ([ValueError], "math domain error"), the explicit [raise ValueError] of
    the option-type dispatch, and an array index out of range ([IndexError]).
    The Core is modelled as called with Python numbers (int, float).  Inside
    [simulate_path] it receives numpy floats, for which a zero divisor gives
    inf or nan with a warning instead of [ZeroDivisionError]; the two agree
    wherever no divisor is zero.  So every statement about the values a run
    of [simulate_path] returns assumes [K > 0] and [sigma > 0], and the
    statements about what the Core raises either assume non-zero divisors or
    are conditional on what [d_1] does.  numpy's [np.exp] and [np.sqrt] never
    raise; they are read as [exp] and [sqrt], which is what they compute for
    the arguments a run with [T >= 0] and [steps >= 1] gives them.

    Library functions.  [scipy.stats.norm.cdf] and numpy's global random
    generator are not code of the repository; they are parameters of the
    sections below.  What a theorem needs of them is a hypothesis of that
    theorem.  [np.linspace], [np.empty] and [np.empty_like] are modelled from
    numpy's documented behaviour. *)

From Stdlib Require Import Reals Lra Lia ZArith String Ascii List Bool.
From stdpp Require Import base list.

Open Scope R_scope.

(** ** Python outcomes *)

Inductive exn : Type :=
| ValueError (msg : string)
| ZeroDivisionError
| IndexError.

Inductive result (A : Type) : Type :=
| Ok (a : A)
| Raise (e : exn).

Arguments Ok {A} a.
Arguments Raise {A} e.

#[global] Instance result_ret : MRet result := fun A a => Ok a.

#[global] Instance result_bind : MBind result := fun A B k m =>
  match m with
  | Ok a => k a
  | Raise e => Raise e
  end.

Definition math_domain_error : exn := ValueError "math domain error".
Definition bad_option_type : exn := ValueError "option_type must be 'call' or 'put'".

(** [x / y] on Python int and float: a zero divisor raises.  (On numpy
    floats the same expression returns inf or nan with a warning, which real
    numbers cannot represent; see the note on numbers above.) *)
Definition py_div (x y : R) : result R :=
  if Req_dec_T y 0 then Raise ZeroDivisionError else Ok (x / y).

(** [math.log] and [math.sqrt]; [math.exp] is [exp]. *)
Definition log (x : R) : result R :=
  if Rlt_dec 0 x then Ok (ln x) else Raise math_domain_error.

Definition math_sqrt (x : R) : result R :=
  if Rlt_dec x 0 then Raise math_domain_error else Ok (sqrt x).

(** Builtin [max(a, b)] on two numbers: [b] when [b > a], else [a]. *)
Definition py_max (a b : R) : R := if Rlt_dec a b then b else a.

(** [str.lower()], on the ASCII range; bytes above 127 (the UTF-8 encoding of
    any other character) are left as they are.  No non-ASCII character
    lower-cases to one of the letters of "call" or "put", so the two
    comparisons of the dispatch agree with Python's on every string. *)
Definition lower_ascii (c : ascii) : ascii :=
  let n := nat_of_ascii c in
  if (65 <=? n)%nat && (n <=? 90)%nat then ascii_of_nat (n + 32) else c.

Fixpoint lower (s : string) : string :=
  match s with
  | EmptyString => EmptyString
  | String c s' => String (lower_ascii c) (lower s')
  end.

(** ** greeks.py *)

Definition is_call (option_type : string) : bool := (lower option_type =? "call")%string.
Definition is_put (option_type : string) : bool := (lower option_type =? "put")%string.

Definition d_1 (S K T r sigma : R) : result R :=
  q ← py_div S K;
  l ← log q;
  s ← math_sqrt T;
  py_div (l + (r + 0.5 * sigma ^ 2) * T) (sigma * s).

Definition d_2 (S K T r sigma : R) : result R :=
  d1 ← d_1 S K T r sigma;
  s ← math_sqrt T;
  mret (d1 - sigma * s).

Definition pdf (x : R) : result R :=
  s ← math_sqrt (2 * PI);
  c ← py_div 1 s;
  mret (c * exp (- 0.5 * x * x)).

Section Core.

(** [scipy.stats.norm.cdf]. *)
Variable norm_cdf : R -> R.

Definition option_price (option_type : string) (S K T r sigma : R) : result R :=
  if Rle_dec T 0 then
    if is_call option_type then mret (py_max (S - K) 0)
    else if is_put option_type then mret (py_max (K - S) 0)
    else Raise bad_option_type
  else
    d1 ← d_1 S K T r sigma;
    d2 ← d_2 S K T r sigma;
    if is_call option_type then
      mret (S * norm_cdf d1 - K * exp (- r * T) * norm_cdf d2)
    else if is_put option_type then
      mret (K * exp (- r * T) * norm_cdf (- d2) - S * norm_cdf (- d1))
    else Raise bad_option_type.

Definition delta (option_type : string) (S K T r sigma : R) : result R :=
  if Rle_dec T 0 then
    if is_call option_type then mret (if Rgt_dec S K then 1 else 0)
    else mret (if Rlt_dec S K then -1 else 0)
  else
    d1 ← d_1 S K T r sigma;
    if is_call option_type then mret (norm_cdf d1)
    else if is_put option_type then mret (norm_cdf d1 - 1)
    else Raise bad_option_type.

Definition gamma (S K T r sigma : R) : result R :=
  if Rle_dec T 0 then mret 0
  else
    d1 ← d_1 S K T r sigma;
    p ← pdf d1;
    s ← math_sqrt T;
    py_div p (S * sigma * s).

Definition vega (S K T r sigma : R) : result R :=
  if Rle_dec T 0 then mret 0
  else
    d1 ← d_1 S K T r sigma;
    p ← pdf d1;
    s ← math_sqrt T;
    mret (S * p * s).

Definition theta (option_type : string) (S K T r sigma : R) : result R :=
  if Rle_dec T 0 then mret 0
  else
    d1 ← d_1 S K T r sigma;
    d2 ← d_2 S K T r sigma;
    p ← pdf d1;
    s ← math_sqrt T;
    term1 ← py_div (- (S * p * sigma)) (2 * s);
    if is_call option_type then
      mret (term1 + - r * K * exp (- r * T) * norm_cdf d2)
    else if is_put option_type then
      mret (term1 + r * K * exp (- r * T) * norm_cdf (- d2))
    else Raise bad_option_type.

Definition rho (option_type : string) (S K T r sigma : R) : result R :=
  if Rle_dec T 0 then mret 0
  else
    d2 ← d_2 S K T r sigma;
    if is_call option_type then mret (K * T * exp (- r * T) * norm_cdf d2)
    else if is_put option_type then mret (- K * T * exp (- r * T) * norm_cdf (- d2))
    else Raise bad_option_type.

End Core.

(** The closed forms the functions compute where nothing raises. *)
Definition d1_value (S K T r sigma : R) : R :=
  (ln (S / K) + (r + 0.5 * sigma ^ 2) * T) / (sigma * sqrt T).

Definition d2_value (S K T r sigma : R) : R :=
  d1_value S K T r sigma - sigma * sqrt T.

Definition pdf_value (x : R) : R := 1 / sqrt (2 * PI) * exp (- 0.5 * x * x).


(** The six Core operations behind one entry point, as the simulator and the
    error-handling statements address them.  [gamma] and [vega] take no
    option type. *)
Inductive core_op : Type := Price | Delta | Gamma | Vega | Theta | Rho.

Definition core_call (norm_cdf : R -> R) (op : core_op)
    (option_type : string) (S K T r sigma : R) : result R :=
  match op with
  | Price => option_price norm_cdf option_type S K T r sigma
  | Delta => delta norm_cdf option_type S K T r sigma
  | Gamma => gamma S K T r sigma
  | Vega => vega S K T r sigma
  | Theta => theta norm_cdf option_type S K T r sigma
  | Rho => rho norm_cdf option_type S K T r sigma
  end.

Definition takes_option_type (op : core_op) : bool :=
  match op with
  | Gamma | Vega => false
  | _ => true
  end.

(** A concrete distribution function with the two properties the theorems
    assume of [norm.cdf] (values in [[0, 1]], and [F (-x) = 1 - F x]): the
    logistic one.  It instantiates the parameter where a statement is
    evaluated at concrete inputs. *)
Definition logistic_cdf (x : R) : R := 1 / (1 + exp (- x)).

(** ** simulation.py *)

(** numpy arrays of floats, as lists; an index outside the array raises
    [IndexError].  Every index the simulator uses is non-negative. *)
Definition getitem (a : list R) (i : nat) : result R :=
  match a !! i with
  | Some v => Ok v
  | None => Raise IndexError
  end.

Definition setitem (a : list R) (i : nat) (v : R) : result (list R) :=
  if decide (i < length a)%nat then Ok (<[i := v]> a) else Raise IndexError.

(** [np.empty(n)]: [n] cells of unspecified content (0 stands for it; the
    simulator writes every cell before it returns), [ValueError] for a
    negative [n].  [np.empty_like(a)] has the shape of [a]. *)
Definition np_empty (n : Z) : result (list R) :=
  if (n <? 0)%Z then Raise (ValueError "negative dimensions are not allowed")
  else Ok (replicate (Z.to_nat n) 0).

Definition np_empty_like (a : list R) : list R := replicate (length a) 0.

(** [np.linspace(start, stop, num)] with its default [endpoint=True]: [num]
    samples [start + i * step] with [step = (stop - start) / (num - 1)], the
    last one set to [stop] itself when [num > 1]; [ValueError] for a negative
    [num]. *)
Definition np_linspace (start stop : R) (num : Z) : result (list R) :=
  if (num <? 0)%Z then Raise (ValueError "Number of samples must be non-negative")
  else
    let n := Z.to_nat num in
    let step := (stop - start) / INR (n - 1) in
    Ok (map (fun i : nat =>
               if (1 <? n)%nat && (i =? n - 1)%nat then stop
               else start + INR i * step)
            (seq 0 n)).

(** [range(n)] and [enumerate(l)]. *)
Definition range (n : Z) : list nat := seq 0 (Z.to_nat n).

Fixpoint enumerate_from {A : Type} (i : nat) (l : list A) : list (nat * A) :=
  match l with
  | [] => []
  | x :: l' => (i, x) :: enumerate_from (i + 1) l'
  end.

Definition enumerate {A : Type} (l : list A) : list (nat * A) := enumerate_from 0 l.

(** The six output arrays the second loop fills. *)
Record greek_arrays : Type := GreekArrays {
  price : list R;
  delta_arr : list R;
  gamma_arr : list R;
  vega_arr : list R;
  theta_arr : list R;
  rho_arr : list R
}.

(** What [simulate_path] returns. *)
Record path_result : Type := PathResult {
  times : list R;
  spots : list R;
  greeks : greek_arrays
}.

Definition array_of (op : core_op) (A : greek_arrays) : list R :=
  match op with
  | Price => price A
  | Delta => delta_arr A
  | Gamma => gamma_arr A
  | Vega => vega_arr A
  | Theta => theta_arr A
  | Rho => rho_arr A
  end.

(** A [for] loop over a list in the [result] monad, threading the variables
    the body assigns. *)
Fixpoint for_each {A B : Type} (xs : list A) (body : A -> B -> result B) (acc : B)
    : result B :=
  match xs with
  | [] => Ok acc
  | x :: xs' => acc' ← body x acc; for_each xs' body acc'
  end.

Section Simulator.

Variable norm_cdf : R -> R.

(** numpy's process-wide generator: its state, [np.random.seed] (the state
    a seed installs, or the error for a seed numpy refuses) and
    [np.random.randn()] (one draw and the advanced state). *)
Variable RandomState : Type.
Variable np_random_seed : Z -> result RandomState.
Variable np_random_randn : RandomState -> R * RandomState.

(** Computations that read and advance the global generator and may raise;
    the generator keeps the state it had when the exception was raised. *)
Definition Sim (A : Type) : Type := RandomState -> result A * RandomState.

Definition sim_ret {A : Type} (a : A) : Sim A := fun g => (Ok a, g).

Definition sim_bind {A B : Type} (m : Sim A) (k : A -> Sim B) : Sim B :=
  fun g =>
    match m g with
    | (Ok a, g') => k a g'
    | (Raise e, g') => (Raise e, g')
    end.

Definition lift {A : Type} (x : result A) : Sim A := fun g => (x, g).

Definition seed_generator (seed : Z) : Sim unit :=
  fun g =>
    match np_random_seed seed with
    | Ok g' => (Ok tt, g')
    | Raise e => (Raise e, g)
    end.

Definition randn : Sim R :=
  fun g => let (z, g') := np_random_randn g in (Ok z, g').

Fixpoint sim_for_each {A B : Type} (xs : list A) (body : A -> B -> Sim B) (acc : B)
    : Sim B :=
  match xs with
  | [] => sim_ret acc
  | x :: xs' => sim_bind (body x acc) (fun acc' => sim_for_each xs' body acc')
  end.

(** Body of the first loop:
    [z = np.random.randn(); S[i+1] = S[i] * np.exp(...)]. *)
Definition spot_step (r sigma dt : R) (i : nat) (S : list R) : Sim (list R) :=
  sim_bind randn (fun z =>
  lift (Si ← getitem S i;
        setitem S (i + 1)
          (Si * exp ((r - 0.5 * sigma ^ 2) * dt + sigma * sqrt dt * z)))).

(** Body of the second loop, for the pair [(i, t)] of [enumerate(times)].
    [S[i]] is read once for the six calls: the loop does not write [S]. *)
Definition greeks_step (option_type : string) (S : list R) (K T r sigma : R)
    (it : nat * R) (A : greek_arrays) : result greek_arrays :=
  let '(i, t) := it in
  let T_rem := py_max (T - t) 0 in
  Si ← getitem S i;
  p ← option_price norm_cdf option_type Si K T_rem r sigma;
  price' ← setitem (price A) i p;
  d ← delta norm_cdf option_type Si K T_rem r sigma;
  delta_arr' ← setitem (delta_arr A) i d;
  g ← gamma Si K T_rem r sigma;
  gamma_arr' ← setitem (gamma_arr A) i g;
  v ← vega Si K T_rem r sigma;
  vega_arr' ← setitem (vega_arr A) i v;
  th ← theta norm_cdf option_type Si K T_rem r sigma;
  theta_arr' ← setitem (theta_arr A) i th;
  rh ← rho norm_cdf option_type Si K T_rem r sigma;
  rho_arr' ← setitem (rho_arr A) i rh;
  mret (GreekArrays price' delta_arr' gamma_arr' vega_arr' theta_arr' rho_arr').

Definition simulate_path (S0 K T r sigma : R) (option_type : string)
    (steps : Z) (seed : option Z) : Sim path_result :=
  sim_bind (match seed with
            | Some s => seed_generator s
            | None => sim_ret tt
            end) (fun _ =>
  sim_bind (lift (py_div T (IZR steps))) (fun dt =>
  sim_bind (lift (np_linspace 0 T (steps + 1))) (fun times =>
  sim_bind (lift (np_empty (steps + 1))) (fun S =>
  sim_bind (lift (setitem S 0 S0)) (fun S =>
  let empty := np_empty_like S in
  let A := GreekArrays empty empty empty empty empty empty in
  sim_bind (sim_for_each (range steps) (spot_step r sigma dt) S) (fun S =>
  sim_bind (lift (for_each (enumerate times)
                    (greeks_step option_type S K T r sigma) A)) (fun A =>
  sim_ret (PathResult times S A)))))))).

End Simulator.

Arguments sim_ret {RandomState A} a.
Arguments sim_bind {RandomState A B} m k.
Arguments lift {RandomState A} x.
Arguments randn {RandomState} np_random_randn.
Arguments seed_generator {RandomState} np_random_seed seed.
Arguments sim_for_each {RandomState A B} xs body acc.
Arguments spot_step {RandomState} np_random_randn r sigma dt i S.
Arguments simulate_path norm_cdf {RandomState} np_random_seed np_random_randn
  S0 K T r sigma option_type steps seed.

(** The time grid [np.linspace(0, T, n + 1)] yields for [n >= 1]: the
    [n + 1] points [i * (T / n)]. *)
Definition grid (T : R) (n : nat) : list R :=
  map (fun i : nat => INR i * (T / INR n)) (seq 0 (n + 1)).

(** A stand-in for numpy's generator, used where a statement is evaluated at
    concrete inputs: the state is a counter, a seed in numpy's accepted range
    [0 .. 2^32 - 1] sets it, and a draw returns one of -1, 0, 1. *)
Definition counter_seed (seed : Z) : result nat :=
  if ((0 <=? seed) && (seed <? 2 ^ 32))%Z then Ok (Z.to_nat seed)
  else Raise (ValueError "Seed must be between 0 and 2**32 - 1").

Definition counter_randn (g : nat) : R * nat := (INR (g mod 3) - 1, (g + 1)%nat).

(** The generator after [k] draws, the [k]-th draw (counted from 0) it then
    yields, and the state a run starts its draws from: the one its seed
    installs, or the one it finds. *)
Fixpoint generator_after {RandomState : Type}
    (np_random_randn : RandomState -> R * RandomState) (k : nat) (g : RandomState)
    : RandomState :=
  match k with
  | O => g
  | Datatypes.S k' => generator_after np_random_randn k' (snd (np_random_randn g))
  end.

Definition draw {RandomState : Type}
    (np_random_randn : RandomState -> R * RandomState) (k : nat) (g : RandomState) : R :=
  fst (np_random_randn (generator_after np_random_randn k g)).

Definition start_state {RandomState : Type}
    (np_random_seed : Z -> result RandomState) (seed : option Z) (g : RandomState)
    : result RandomState :=
  match seed with
  | Some s => np_random_seed s
  | None => Ok g
  end.

(** The arrays as they stand when the first loop starts: [S] with [S[0] = S0]
    and the six output arrays of [np.empty_like(S)]. *)
Definition initial_spots (n : nat) (S0 : R) : list R := <[0%nat := S0]> (replicate (n + 1) 0).

Definition initial_arrays (n : nat) : greek_arrays :=
  let e := replicate (n + 1) 0 in GreekArrays e e e e e e.

(** One step of the discretised geometric Brownian motion. *)
Definition gbm_step (r sigma dt z s : R) : R :=
  s * exp ((r - 0.5 * sigma ^ 2) * dt + sigma * sqrt dt * z).
(** * Properties *)

(** ** The primitives on their domains *)

Example lower_mixed : lower "CaLl" = "call"%string.
Proof. reflexivity. Qed.


Lemma py_max_Rmax a b : py_max a b = Rmax a b.
Proof.
  unfold py_max, Rmax.
  destruct (Rlt_dec a b), (Rle_dec a b); lra.
Qed.

Lemma py_div_ok x y : y <> 0 -> py_div x y = Ok (x / y).
Proof. intros Hy. unfold py_div. destruct (Req_dec_T y 0); [contradiction | reflexivity]. Qed.

Lemma py_div_zero x : py_div x 0 = Raise ZeroDivisionError.
Proof. unfold py_div. destruct (Req_dec_T 0 0); [reflexivity | lra]. Qed.

Lemma log_ok x : 0 < x -> log x = Ok (ln x).
Proof. intros Hx. unfold log. destruct (Rlt_dec 0 x); [reflexivity | lra]. Qed.

Lemma log_domain x : x <= 0 -> log x = Raise math_domain_error.
Proof. intros Hx. unfold log. destruct (Rlt_dec 0 x); [lra | reflexivity]. Qed.

Lemma math_sqrt_ok x : 0 <= x -> math_sqrt x = Ok (sqrt x).
Proof. intros Hx. unfold math_sqrt. destruct (Rlt_dec x 0); [lra | reflexivity]. Qed.

Lemma math_sqrt_domain x : x < 0 -> math_sqrt x = Raise math_domain_error.
Proof. intros Hx. unfold math_sqrt. destruct (Rlt_dec x 0); [reflexivity | lra]. Qed.

Lemma bind_Ok {A B} (a : A) (k : A -> result B) : (Ok a ≫= k) = k a.
Proof. reflexivity. Qed.

Lemma bind_Raise {A B} (e : exn) (k : A -> result B) : (Raise e ≫= k) = Raise e.
Proof. reflexivity. Qed.

Lemma sqrt_2PI_pos : 0 < sqrt (2 * PI).
Proof. apply sqrt_lt_R0. pose proof PI_RGT_0. lra. Qed.

Lemma pdf_ok x : pdf x = Ok (pdf_value x).
Proof.
  unfold pdf, pdf_value.
  pose proof PI_RGT_0 as Hpi. pose proof sqrt_2PI_pos as Hs.
  rewrite math_sqrt_ok by lra. rewrite bind_Ok.
  rewrite py_div_ok by lra. reflexivity.
Qed.

Lemma pdf_value_pos x : 0 < pdf_value x.
Proof.
  unfold pdf_value. pose proof sqrt_2PI_pos as Hs.
  apply Rmult_lt_0_compat; [| apply exp_pos].
  apply Rdiv_lt_0_compat; lra.
Qed.

Lemma d_1_ok S K T r sigma :
  K <> 0 -> 0 < S / K -> 0 < T -> sigma <> 0 ->
  d_1 S K T r sigma = Ok (d1_value S K T r sigma).
Proof.
  intros HK Hq HT Hs. unfold d_1, d1_value.
  rewrite py_div_ok by assumption. rewrite bind_Ok.
  rewrite log_ok by assumption. rewrite bind_Ok.
  rewrite math_sqrt_ok by lra. rewrite bind_Ok.
  apply py_div_ok.
  pose proof (sqrt_lt_R0 T HT). nra.
Qed.

Lemma d_2_ok S K T r sigma :
  K <> 0 -> 0 < S / K -> 0 < T -> sigma <> 0 ->
  d_2 S K T r sigma = Ok (d2_value S K T r sigma).
Proof.
  intros HK Hq HT Hs. unfold d_2, d2_value.
  rewrite d_1_ok by assumption. rewrite bind_Ok.
  rewrite math_sqrt_ok by lra. reflexivity.
Qed.

(** The three ways [d_1] raises when [T > 0], in the order Python meets them
    (the two [ZeroDivisionError]s: for Python int and float operands). *)
Lemma d_1_zero_strike S T r sigma : d_1 S 0 T r sigma = Raise ZeroDivisionError.
Proof. unfold d_1. rewrite py_div_zero. reflexivity. Qed.

Lemma d_1_log_domain S K T r sigma :
  K <> 0 -> S / K <= 0 -> d_1 S K T r sigma = Raise math_domain_error.
Proof.
  intros HK Hq. unfold d_1.
  rewrite py_div_ok by assumption. rewrite bind_Ok.
  rewrite log_domain by assumption. reflexivity.
Qed.

Lemma d_1_zero_sigma S K T r :
  K <> 0 -> 0 < S / K -> 0 <= T -> d_1 S K T r 0 = Raise ZeroDivisionError.
Proof.
  intros HK Hq HT. unfold d_1.
  rewrite py_div_ok by assumption. rewrite bind_Ok.
  rewrite log_ok by assumption. rewrite bind_Ok.
  rewrite math_sqrt_ok by assumption. rewrite bind_Ok.
  rewrite Rmult_0_l. apply py_div_zero.
Qed.

Lemma pos_ratio S K : 0 < S -> 0 < K -> K <> 0 /\ 0 < S / K.
Proof. intros HS HK. split; [lra | apply Rdiv_lt_0_compat; assumption]. Qed.

Ltac expiry_branch T :=
  destruct (Rle_dec T 0) as [?|?]; [| lra].

Ltac live_branch T :=
  destruct (Rle_dec T 0) as [?|?]; [lra |].

(** ** The Core at expiry ([T <= 0]) *)

Section Expiry.

Variable norm_cdf : R -> R.
Variables (S K T r sigma : R).
Hypothesis expired : T <= 0.

Lemma option_price_expired_call ot :
  is_call ot = true -> option_price norm_cdf ot S K T r sigma = Ok (Rmax (S - K) 0).
Proof.
  intros Hc. unfold option_price. expiry_branch T.
  rewrite Hc, py_max_Rmax. reflexivity.
Qed.

Lemma option_price_expired_put ot :
  is_put ot = true -> option_price norm_cdf ot S K T r sigma = Ok (Rmax (K - S) 0).
Proof.
  intros Hp. unfold option_price. expiry_branch T.
  destruct (is_call ot) eqn:Hc.
  - unfold is_call, is_put in *.
    apply String.eqb_eq in Hc, Hp. congruence.
  - rewrite Hp, py_max_Rmax. reflexivity.
Qed.

Lemma option_price_expired_invalid ot :
  is_call ot = false -> is_put ot = false ->
  option_price norm_cdf ot S K T r sigma = Raise bad_option_type.
Proof.
  intros Hc Hp. unfold option_price. expiry_branch T.
  rewrite Hc, Hp. reflexivity.
Qed.

Lemma delta_expired_call ot :
  is_call ot = true ->
  delta norm_cdf ot S K T r sigma = Ok (if Rgt_dec S K then 1 else 0).
Proof. intros Hc. unfold delta. expiry_branch T. rewrite Hc. reflexivity. Qed.

Lemma delta_expired_not_call ot :
  is_call ot = false ->
  delta norm_cdf ot S K T r sigma = Ok (if Rlt_dec S K then -1 else 0).
Proof. intros Hc. unfold delta. expiry_branch T. rewrite Hc. reflexivity. Qed.

Lemma gamma_expired : gamma S K T r sigma = Ok 0.
Proof. unfold gamma. expiry_branch T. reflexivity. Qed.

Lemma vega_expired : vega S K T r sigma = Ok 0.
Proof. unfold vega. expiry_branch T. reflexivity. Qed.

Lemma theta_expired ot : theta norm_cdf ot S K T r sigma = Ok 0.
Proof. unfold theta. expiry_branch T. reflexivity. Qed.

Lemma rho_expired ot : rho norm_cdf ot S K T r sigma = Ok 0.
Proof. unfold rho. expiry_branch T. reflexivity. Qed.

End Expiry.

Lemma call_not_put ot : is_call ot = true -> is_put ot = false.
Proof.
  unfold is_call, is_put. intros Hc. apply String.eqb_eq in Hc.
  rewrite Hc. reflexivity.
Qed.

(** C1.  At or after expiry ([T <= 0]) [option_price] returns the intrinsic
    payoff, [max(S - K, 0)] for a call and [max(K - S, 0)] for a put, whatever
    the spelling's case; the value mentions neither [r], [sigma] nor the
    normal CDF, so there is no discounting and no volatility dependence. *)
Theorem option_price_intrinsic_at_expiry
    (norm_cdf : R -> R) (option_type : string) (S K T r sigma : R) :
  T <= 0 ->
  (is_call option_type = true ->
     option_price norm_cdf option_type S K T r sigma = Ok (Rmax (S - K) 0)) /\
  (is_put option_type = true ->
     option_price norm_cdf option_type S K T r sigma = Ok (Rmax (K - S) 0)).
Proof.
  intros HT. split; intros H.
  - apply option_price_expired_call; assumption.
  - apply option_price_expired_put; assumption.
Qed.

(** The scenario of the specification: [T = 0], [S = 105], [K = 100] gives a
    call price of 5 and a put price of 0. *)
Lemma option_price_intrinsic_at_expiry_witness :
  option_price logistic_cdf "CALL" 105 100 0 0.05 0.2 = Ok 5 /\
  option_price logistic_cdf "Put" 105 100 0 0.05 0.2 = Ok 0.
Proof.
  destruct (option_price_intrinsic_at_expiry logistic_cdf "CALL" 105 100 0 0.05 0.2)
    as [Hcall _]; [lra |].
  destruct (option_price_intrinsic_at_expiry logistic_cdf "Put" 105 100 0 0.05 0.2)
    as [_ Hput]; [lra |].
  rewrite Hcall, Hput by reflexivity.
  split; f_equal.
  - rewrite Rmax_left; lra.
  - rewrite Rmax_right; lra.
Defined.

(** C4.  At or after expiry [delta] is the step function: a call has delta 1
    when [S > K] and 0 otherwise, a put has delta -1 when [S < K] and 0
    otherwise; at [S = K] both are 0. *)
Theorem delta_step_at_expiry
    (norm_cdf : R -> R) (option_type : string) (S K T r sigma : R) :
  T <= 0 ->
  (is_call option_type = true ->
     (S > K -> delta norm_cdf option_type S K T r sigma = Ok 1) /\
     (S <= K -> delta norm_cdf option_type S K T r sigma = Ok 0)) /\
  (is_put option_type = true ->
     (S < K -> delta norm_cdf option_type S K T r sigma = Ok (-1)) /\
     (S >= K -> delta norm_cdf option_type S K T r sigma = Ok 0)) /\
  (is_call option_type = true \/ is_put option_type = true ->
     S = K -> delta norm_cdf option_type S K T r sigma = Ok 0).
Proof.
  intros HT.
  assert (Hcall : is_call option_type = true ->
     (S > K -> delta norm_cdf option_type S K T r sigma = Ok 1) /\
     (S <= K -> delta norm_cdf option_type S K T r sigma = Ok 0)).
  { intros Hc. rewrite (delta_expired_call norm_cdf S K T r sigma HT _ Hc).
    split; intros HSK; destruct (Rgt_dec S K); try reflexivity; lra. }
  assert (Hput : is_put option_type = true ->
     (S < K -> delta norm_cdf option_type S K T r sigma = Ok (-1)) /\
     (S >= K -> delta norm_cdf option_type S K T r sigma = Ok 0)).
  { intros Hp.
    assert (Hc : is_call option_type = false).
    { destruct (is_call option_type) eqn:E; [| reflexivity].
      apply call_not_put in E. congruence. }
    rewrite (delta_expired_not_call norm_cdf S K T r sigma HT _ Hc).
    split; intros HSK; destruct (Rlt_dec S K); try reflexivity; lra. }
  split; [exact Hcall |]. split; [exact Hput |].
  intros [Hc | Hp] HSK.
  - apply (Hcall Hc). lra.
  - apply (Hput Hp). lra.
Qed.

(** [T = 0], [S = 105], [K = 100]: call delta 1, put delta 0; and at
    [S = K = 100] the call delta is 0. *)
Lemma delta_step_at_expiry_witness :
  delta logistic_cdf "call" 105 100 0 0.05 0.2 = Ok 1 /\
  delta logistic_cdf "PUT" 105 100 0 0.05 0.2 = Ok 0 /\
  delta logistic_cdf "Call" 100 100 0 0.05 0.2 = Ok 0.
Proof.
  split; [| split].
  - destruct (delta_step_at_expiry logistic_cdf "call" 105 100 0 0.05 0.2)
      as (Hcall & _); [lra |].
    apply Hcall; [reflexivity | lra].
  - destruct (delta_step_at_expiry logistic_cdf "PUT" 105 100 0 0.05 0.2)
      as (_ & Hput & _); [lra |].
    apply Hput; [reflexivity | lra].
  - destruct (delta_step_at_expiry logistic_cdf "Call" 100 100 0 0.05 0.2)
      as (_ & _ & Hboundary); [lra |].
    apply Hboundary; [left |]; reflexivity.
Defined.

(** C10.  Whenever [T <= 0], [gamma], [vega], [theta] and [rho] return 0 for
    every spot, strike, rate and volatility, of any sign, and for every
    option-type string, valid or not: nothing raises on this branch. *)
Theorem greeks_zero_at_expiry
    (norm_cdf : R -> R) (option_type : string) (S K T r sigma : R) :
  T <= 0 ->
  gamma S K T r sigma = Ok 0 /\
  vega S K T r sigma = Ok 0 /\
  theta norm_cdf option_type S K T r sigma = Ok 0 /\
  rho norm_cdf option_type S K T r sigma = Ok 0.
Proof.
  intros HT. repeat split.
  - apply gamma_expired; assumption.
  - apply vega_expired; assumption.
  - apply theta_expired; assumption.
  - apply rho_expired; assumption.
Qed.

(** An invalid option type together with a zero strike, a negative spot and
    a negative volatility, one day after expiry. *)
Lemma greeks_zero_at_expiry_witness :
  is_call "straddle" = false /\ is_put "straddle" = false /\
  gamma (-3) 0 (-1 / 365) 0.05 (-0.2) = Ok 0 /\
  vega (-3) 0 (-1 / 365) 0.05 (-0.2) = Ok 0 /\
  theta logistic_cdf "straddle" (-3) 0 (-1 / 365) 0.05 (-0.2) = Ok 0 /\
  rho logistic_cdf "straddle" (-3) 0 (-1 / 365) 0.05 (-0.2) = Ok 0.
Proof.
  split; [reflexivity |]. split; [reflexivity |].
  apply (greeks_zero_at_expiry logistic_cdf "straddle" (-3) 0 (-1 / 365) 0.05 (-0.2)).
  lra.
Defined.

(** ** The Core before expiry ([T > 0]) *)

Lemma logistic_cdf_range x : 0 <= logistic_cdf x <= 1.
Proof.
  unfold logistic_cdf. pose proof (exp_pos (- x)) as He.
  split.
  - apply Rlt_le, Rdiv_lt_0_compat; lra.
  - apply (Rmult_le_reg_r (1 + exp (- x))); [lra |].
    unfold Rdiv. rewrite Rmult_assoc, Rinv_l by lra. lra.
Qed.

Lemma logistic_cdf_symmetric x : logistic_cdf (- x) = 1 - logistic_cdf x.
Proof.
  unfold logistic_cdf. rewrite Ropp_involutive.
  pose proof (exp_pos x) as Hx. pose proof (exp_pos (- x)) as Hnx.
  assert (Hinv : exp (- x) = / exp x) by apply exp_Ropp.
  rewrite Hinv. field. split; [lra |].
  rewrite Hinv in Hnx. lra.
Qed.

Section Live.

Variable norm_cdf : R -> R.
Variables (S K T r sigma : R).
Hypothesis live : 0 < T.

Let sqrtT_pos : 0 < sqrt T := sqrt_lt_R0 T live.

(** Every operation evaluates [d_1] first, so what [d_1] raises is what the
    operation raises, whatever the option type. *)
Lemma core_call_d_1_raises op ot e :
  d_1 S K T r sigma = Raise e ->
  core_call norm_cdf op ot S K T r sigma = Raise e.
Proof.
  intros Hd.
  destruct op; simpl;
    unfold option_price, delta, gamma, vega, theta, rho, d_2;
    live_branch T; rewrite Hd; reflexivity.
Qed.

Section InDomain.

Hypothesis strike_nonzero : K <> 0.
Hypothesis ratio_pos : 0 < S / K.
Hypothesis sigma_nonzero : sigma <> 0.

Let d1 := d1_value S K T r sigma.
Let d2 := d2_value S K T r sigma.

Lemma spot_nonzero : S <> 0.
Proof. intros ->. unfold Rdiv in ratio_pos. lra. Qed.

Ltac core_steps :=
  live_branch T;
  repeat first
    [ rewrite d_1_ok by assumption
    | rewrite d_2_ok by assumption
    | rewrite pdf_ok
    | rewrite math_sqrt_ok by lra
    | rewrite bind_Ok ].

Lemma option_price_live_call ot :
  is_call ot = true ->
  option_price norm_cdf ot S K T r sigma
  = Ok (S * norm_cdf d1 - K * exp (- r * T) * norm_cdf d2).
Proof. intros Hc. unfold option_price. core_steps. rewrite Hc. reflexivity. Qed.

Lemma option_price_live_put ot :
  is_put ot = true ->
  option_price norm_cdf ot S K T r sigma
  = Ok (K * exp (- r * T) * norm_cdf (- d2) - S * norm_cdf (- d1)).
Proof.
  intros Hp. unfold option_price. core_steps.
  destruct (is_call ot) eqn:Hc; [apply call_not_put in Hc; congruence |].
  rewrite Hp. reflexivity.
Qed.

Lemma delta_live_call ot :
  is_call ot = true -> delta norm_cdf ot S K T r sigma = Ok (norm_cdf d1).
Proof. intros Hc. unfold delta. core_steps. rewrite Hc. reflexivity. Qed.

Lemma delta_live_put ot :
  is_put ot = true -> delta norm_cdf ot S K T r sigma = Ok (norm_cdf d1 - 1).
Proof.
  intros Hp. unfold delta. core_steps.
  destruct (is_call ot) eqn:Hc; [apply call_not_put in Hc; congruence |].
  rewrite Hp. reflexivity.
Qed.

Lemma gamma_live :
  gamma S K T r sigma = Ok (pdf_value d1 / (S * sigma * sqrt T)).
Proof.
  unfold gamma. core_steps. apply py_div_ok.
  pose proof spot_nonzero.
  repeat apply Rmult_integral_contrapositive_currified; lra.
Qed.

Lemma vega_live : vega S K T r sigma = Ok (S * pdf_value d1 * sqrt T).
Proof. unfold vega. core_steps. reflexivity. Qed.

Lemma theta_live_call ot :
  is_call ot = true ->
  theta norm_cdf ot S K T r sigma
  = Ok (- (S * pdf_value d1 * sigma) / (2 * sqrt T)
        + - r * K * exp (- r * T) * norm_cdf d2).
Proof.
  intros Hc. unfold theta. core_steps.
  rewrite py_div_ok by lra. rewrite bind_Ok, Hc. reflexivity.
Qed.

Lemma theta_live_put ot :
  is_put ot = true ->
  theta norm_cdf ot S K T r sigma
  = Ok (- (S * pdf_value d1 * sigma) / (2 * sqrt T)
        + r * K * exp (- r * T) * norm_cdf (- d2)).
Proof.
  intros Hp. unfold theta. core_steps.
  rewrite py_div_ok by lra. rewrite bind_Ok.
  destruct (is_call ot) eqn:Hc; [apply call_not_put in Hc; congruence |].
  rewrite Hp. reflexivity.
Qed.

Lemma rho_live_call ot :
  is_call ot = true ->
  rho norm_cdf ot S K T r sigma = Ok (K * T * exp (- r * T) * norm_cdf d2).
Proof. intros Hc. unfold rho. core_steps. rewrite Hc. reflexivity. Qed.

Lemma rho_live_put ot :
  is_put ot = true ->
  rho norm_cdf ot S K T r sigma = Ok (- K * T * exp (- r * T) * norm_cdf (- d2)).
Proof.
  intros Hp. unfold rho. core_steps.
  destruct (is_call ot) eqn:Hc; [apply call_not_put in Hc; congruence |].
  rewrite Hp. reflexivity.
Qed.

(** With [d_1] and [d_2] defined, a third spelling reaches the [else] of
    the dispatch in the four operations that have one. *)
Lemma core_call_live_invalid op ot :
  takes_option_type op = true ->
  is_call ot = false -> is_put ot = false ->
  core_call norm_cdf op ot S K T r sigma = Raise bad_option_type.
Proof.
  intros Hop Hc Hp.
  destruct op; try discriminate Hop; simpl;
    unfold option_price, delta, theta, rho; core_steps;
    try (rewrite py_div_ok by lra; rewrite bind_Ok);
    rewrite Hc, Hp; reflexivity.
Qed.

Lemma core_call_live_valid op ot :
  is_call ot = true \/ is_put ot = true ->
  exists v, core_call norm_cdf op ot S K T r sigma = Ok v.
Proof.
  intros [Hc | Hp]; destruct op; simpl; eexists.
  - apply option_price_live_call; assumption.
  - apply delta_live_call; assumption.
  - apply gamma_live.
  - apply vega_live.
  - apply theta_live_call; assumption.
  - apply rho_live_call; assumption.
  - apply option_price_live_put; assumption.
  - apply delta_live_put; assumption.
  - apply gamma_live.
  - apply vega_live.
  - apply theta_live_put; assumption.
  - apply rho_live_put; assumption.
Qed.

End InDomain.

End Live.

(** ** Parity, bounds and signs *)

(** C2.  Put-call parity, exactly, over the reals: for positive spot, strike,
    time to expiry and volatility and any rate, both prices are returned and
    [price(CALL) - price(PUT) = S - K * exp(-r*T)].  The one fact used of the
    normal CDF is its symmetry, [cdf(-x) = 1 - cdf(x)]. *)
Theorem put_call_parity
    (norm_cdf : R -> R) (call_type put_type : string) (S K T r sigma : R) :
  (forall x, norm_cdf (- x) = 1 - norm_cdf x) ->
  is_call call_type = true -> is_put put_type = true ->
  0 < S -> 0 < K -> 0 < T -> 0 < sigma ->
  exists c p,
    option_price norm_cdf call_type S K T r sigma = Ok c /\
    option_price norm_cdf put_type S K T r sigma = Ok p /\
    c - p = S - K * exp (- r * T).
Proof.
  intros Hsym Hc Hp HS HK HT Hsig.
  destruct (pos_ratio S K HS HK) as [HK0 Hq].
  assert (Hs0 : sigma <> 0) by lra.
  do 2 eexists. split; [| split].
  - apply option_price_live_call; assumption.
  - apply option_price_live_put; assumption.
  - rewrite !Hsym. ring.
Qed.

Lemma put_call_parity_witness :
  exists c p,
    option_price logistic_cdf "call" 100 100 1 0.05 0.2 = Ok c /\
    option_price logistic_cdf "put" 100 100 1 0.05 0.2 = Ok p /\
    c - p = 100 - 100 * exp (- (0.05) * 1).
Proof.
  apply (put_call_parity logistic_cdf "call" "put" 100 100 1 0.05 0.2);
    first [exact logistic_cdf_symmetric | reflexivity | lra].
Defined.

(** C5.  For positive spot, strike and volatility and every [T >= 0], the
    delta of a call lies in [[0, 1]] and the delta of a put in [[-1, 0]].
    The one fact used of the normal CDF is that its values lie in [[0, 1]]. *)
Theorem delta_bounds
    (norm_cdf : R -> R) (option_type : string) (S K T r sigma : R) :
  (forall x, 0 <= norm_cdf x <= 1) ->
  0 < S -> 0 < K -> 0 < sigma -> 0 <= T ->
  (is_call option_type = true ->
     exists d, delta norm_cdf option_type S K T r sigma = Ok d /\ 0 <= d <= 1) /\
  (is_put option_type = true ->
     exists d, delta norm_cdf option_type S K T r sigma = Ok d /\ -1 <= d <= 0).
Proof.
  intros Hrange HS HK Hsig HT.
  destruct (pos_ratio S K HS HK) as [HK0 Hq].
  assert (Hs0 : sigma <> 0) by lra.
  destruct (Rle_lt_or_eq_dec 0 T HT) as [Hlive | Hzero].
  - split; intros Hot; eexists; split.
    + apply delta_live_call; assumption.
    + apply Hrange.
    + apply delta_live_put; assumption.
    + specialize (Hrange (d1_value S K T r sigma)). lra.
  - assert (Hexp : T <= 0) by lra.
    split; intros Hot.
    + rewrite (delta_expired_call norm_cdf S K T r sigma Hexp _ Hot).
      eexists; split; [reflexivity |]. destruct (Rgt_dec S K); lra.
    + assert (Hc : is_call option_type = false).
      { destruct (is_call option_type) eqn:E; [| reflexivity].
        apply call_not_put in E. congruence. }
      rewrite (delta_expired_not_call norm_cdf S K T r sigma Hexp _ Hc).
      eexists; split; [reflexivity |]. destruct (Rlt_dec S K); lra.
Qed.

Lemma delta_bounds_witness :
  (exists d, delta logistic_cdf "call" 100 100 1 0.05 0.2 = Ok d /\ 0 <= d <= 1) /\
  (exists d, delta logistic_cdf "put" 100 100 0 0.05 0.2 = Ok d /\ -1 <= d <= 0).
Proof.
  split.
  - apply (delta_bounds logistic_cdf "call" 100 100 1 0.05 0.2);
      first [exact logistic_cdf_range | reflexivity | lra].
  - apply (delta_bounds logistic_cdf "put" 100 100 0 0.05 0.2);
      first [exact logistic_cdf_range | reflexivity | lra].
Defined.

(** C6.  For positive spot, strike and volatility and every [T >= 0],
    [gamma] and [vega] return non-negative values; they take no option type,
    so through the common entry point a call and a put (indeed any two
    option-type strings) get the same gamma and the same vega. *)
Theorem gamma_vega_nonneg_type_independent
    (norm_cdf : R -> R) (S K T r sigma : R) :
  0 < S -> 0 < K -> 0 < sigma -> 0 <= T ->
  (exists g v,
     gamma S K T r sigma = Ok g /\ vega S K T r sigma = Ok v /\ 0 <= g /\ 0 <= v) /\
  (forall ot1 ot2,
     core_call norm_cdf Gamma ot1 S K T r sigma = core_call norm_cdf Gamma ot2 S K T r sigma /\
     core_call norm_cdf Vega ot1 S K T r sigma = core_call norm_cdf Vega ot2 S K T r sigma).
Proof.
  intros HS HK Hsig HT. split; [| intros; split; reflexivity].
  destruct (pos_ratio S K HS HK) as [HK0 Hq].
  assert (Hs0 : sigma <> 0) by lra.
  destruct (Rle_lt_or_eq_dec 0 T HT) as [Hlive | Hzero].
  - pose proof (sqrt_lt_R0 T Hlive) as Hsqrt.
    pose proof (pdf_value_pos (d1_value S K T r sigma)) as Hpdf.
    do 2 eexists. split; [| split; [| split]].
    + apply gamma_live; assumption.
    + apply vega_live; assumption.
    + apply Rlt_le, Rdiv_lt_0_compat; [exact Hpdf |].
      repeat apply Rmult_lt_0_compat; assumption.
    + apply Rlt_le.
      apply Rmult_lt_0_compat; [apply Rmult_lt_0_compat |]; assumption.
  - assert (Hexp : T <= 0) by lra.
    exists 0, 0. split; [| split; [| split]]; try lra.
    + apply gamma_expired; assumption.
    + apply vega_expired; assumption.
Qed.

Lemma gamma_vega_nonneg_type_independent_witness :
  exists g v,
    gamma 100 100 1 0.05 0.2 = Ok g /\ vega 100 100 1 0.05 0.2 = Ok v /\ 0 <= g /\ 0 <= v.
Proof.
  apply (gamma_vega_nonneg_type_independent logistic_cdf 100 100 1 0.05 0.2); lra.
Defined.

(** ** Error handling of the Core *)

(** What [d_1] does for [T > 0], by the order of its operations.  The two
    [ZeroDivisionError] cases are those of [/] on Python int and float; the
    claims' theorems below do not rest on them. *)
Lemma d_1_live_cases S K T r sigma :
  0 < T ->
  (K = 0 /\ d_1 S K T r sigma = Raise ZeroDivisionError) \/
  (K <> 0 /\ S / K <= 0 /\ d_1 S K T r sigma = Raise math_domain_error) \/
  (K <> 0 /\ 0 < S / K /\ sigma = 0 /\ d_1 S K T r sigma = Raise ZeroDivisionError) \/
  (K <> 0 /\ 0 < S / K /\ sigma <> 0 /\ d_1 S K T r sigma = Ok (d1_value S K T r sigma)).
Proof.
  intros HT.
  destruct (Req_dec_T K 0) as [-> | HK].
  { left. split; [reflexivity | apply d_1_zero_strike]. }
  right. destruct (Rle_dec (S / K) 0) as [Hq | Hq].
  { left. repeat split; try assumption. apply d_1_log_domain; assumption. }
  right. assert (Hq' : 0 < S / K) by lra.
  destruct (Req_dec_T sigma 0) as [-> | Hs].
  { left. repeat split; try assumption. apply d_1_zero_sigma; [assumption .. | lra]. }
  right. repeat split; try assumption. apply d_1_ok; assumption.
Qed.

(** C8, as the code has it.  The Core validates no numeric argument: for
    [T > 0] and a valid option type, what each of the six operations does
    with a non-positive strike, spot or volatility is what the arithmetic of
    [d_1] does.  Whatever [d_1] raises, the operation raises.  With a
    non-zero strike and [S / K <= 0] (a zero spot, or spot and strike of
    opposite signs) that is the [ValueError] ("math domain error") of [log].
    And with a non-zero strike, [S / K > 0] and a non-zero volatility the
    operation returns a number: a negative volatility, and a spot and strike
    that are both negative, are accepted.  What a zero strike or a zero
    volatility does depends on the type of the operands ([ZeroDivisionError]
    for Python int and float, inf or nan with a warning for numpy floats) and
    is not part of the statement. *)
Theorem numeric_domain_outcomes
    (norm_cdf : R -> R) (op : core_op) (option_type : string) (S K T r sigma : R) :
  0 < T ->
  is_call option_type = true \/ is_put option_type = true ->
  (forall e, d_1 S K T r sigma = Raise e ->
     core_call norm_cdf op option_type S K T r sigma = Raise e) /\
  (K <> 0 -> S / K <= 0 ->
     core_call norm_cdf op option_type S K T r sigma = Raise math_domain_error) /\
  (K <> 0 -> 0 < S / K -> sigma <> 0 ->
     exists v, core_call norm_cdf op option_type S K T r sigma = Ok v).
Proof.
  intros HT Hot. repeat split.
  - intros e Hd. apply core_call_d_1_raises; assumption.
  - intros HK Hq. apply core_call_d_1_raises; [assumption |].
    apply d_1_log_domain; assumption.
  - intros HK Hq Hs. apply core_call_live_valid; assumption.
Qed.

Lemma numeric_domain_outcomes_witness :
  option_price logistic_cdf "call" (-100) 100 1 0.05 0.2 = Raise math_domain_error /\
  gamma 0 100 1 0.05 0.2 = Raise math_domain_error /\
  (exists v, option_price logistic_cdf "call" 100 100 1 0.05 (- (0.2)) = Ok v) /\
  (exists v, option_price logistic_cdf "put" (-100) (-100) 1 0.05 0.2 = Ok v).
Proof.
  assert (Hcall : is_call "call" = true \/ is_put "call" = true) by (left; reflexivity).
  assert (Hput : is_call "put" = true \/ is_put "put" = true) by (right; reflexivity).
  split; [| split; [| split]].
  - destruct (numeric_domain_outcomes logistic_cdf Price "call" (-100) 100 1 0.05 0.2)
      as (_ & Hlog & _); [lra | exact Hcall |].
    apply Hlog; lra.
  - destruct (numeric_domain_outcomes logistic_cdf Gamma "call" 0 100 1 0.05 0.2)
      as (_ & Hlog & _); [lra | exact Hcall |].
    apply Hlog; lra.
  - destruct (numeric_domain_outcomes logistic_cdf Price "call" 100 100 1 0.05 (- (0.2)))
      as (_ & _ & Hok); [lra | exact Hcall |].
    apply Hok; lra.
  - destruct (numeric_domain_outcomes logistic_cdf Price "put" (-100) (-100) 1 0.05 0.2)
      as (_ & _ & Hok); [lra | exact Hput |].
    apply Hok; lra.
Defined.

(** C8 as the specification states it fails: one year before expiry, with a
    volatility of -1 (spot 1, strike 1, rate 0), [gamma] raises nothing and
    returns a negative number. *)
Lemma negative_volatility_accepted :
  gamma 1 1 1 0 (-1) = Ok (- pdf_value (-1 / 2)) /\ - pdf_value (-1 / 2) < 0.
Proof.
  split.
  - rewrite gamma_live by lra.
    assert (Hd : d1_value 1 1 1 0 (-1) = -1 / 2).
    { unfold d1_value. rewrite sqrt_1.
      replace (1 / 1) with 1 by lra. rewrite ln_1. lra. }
    rewrite Hd, sqrt_1. f_equal. lra.
  - pose proof (pdf_value_pos (-1 / 2)). lra.
Qed.

(** C3, as the code has it.  An option type that matches neither "call" nor
    "put" never yields a value from [option_price] (at any [T]) nor, for
    [T > 0], from [delta], [theta] or [rho].  These evaluate [d_1] before
    they look at the option type: when [d_1] raises, the operation raises
    that same exception (for instance the "math domain error" of [log] when
    [S / K <= 0]), and when [d_1] returns, the operation raises the
    option-type [ValueError].  [option_price] at [T <= 0] raises the
    option-type [ValueError] always.  At [T <= 0], [theta] and [rho] return 0
    before they look at the option type. *)
Theorem invalid_option_type_outcomes
    (norm_cdf : R -> R) (option_type : string) (S K T r sigma : R) :
  is_call option_type = false -> is_put option_type = false ->
  (T <= 0 ->
     option_price norm_cdf option_type S K T r sigma = Raise bad_option_type /\
     theta norm_cdf option_type S K T r sigma = Ok 0 /\
     rho norm_cdf option_type S K T r sigma = Ok 0) /\
  (0 < T -> forall op, takes_option_type op = true ->
     (exists e, core_call norm_cdf op option_type S K T r sigma = Raise e) /\
     (forall e, d_1 S K T r sigma = Raise e ->
        core_call norm_cdf op option_type S K T r sigma = Raise e) /\
     (forall d1, d_1 S K T r sigma = Ok d1 ->
        core_call norm_cdf op option_type S K T r sigma = Raise bad_option_type) /\
     (K <> 0 -> S / K <= 0 ->
        core_call norm_cdf op option_type S K T r sigma = Raise math_domain_error) /\
     (K <> 0 -> 0 < S / K -> sigma <> 0 ->
        core_call norm_cdf op option_type S K T r sigma = Raise bad_option_type)).
Proof.
  intros Hc Hp. split.
  - intros HT. repeat split.
    + apply option_price_expired_invalid; assumption.
    + apply theta_expired; assumption.
    + apply rho_expired; assumption.
  - intros HT op Hop.
    assert (Hreturned : forall d1, d_1 S K T r sigma = Ok d1 ->
              core_call norm_cdf op option_type S K T r sigma = Raise bad_option_type).
    { intros d1 Hd.
      destruct (d_1_live_cases S K T r sigma HT)
        as [(_ & Hr) | [(_ & _ & Hr) | [(_ & _ & _ & Hr) | (HK & Hq & Hs & _)]]];
        try (rewrite Hr in Hd; discriminate Hd).
      apply core_call_live_invalid; assumption. }
    split; [| split; [| split; [exact Hreturned | split]]].
    + destruct (d_1 S K T r sigma) as [d1 | e] eqn:Hd.
      * eexists. apply (Hreturned d1). reflexivity.
      * exists e. apply core_call_d_1_raises; assumption.
    + intros e Hd. apply core_call_d_1_raises; assumption.
    + intros HK Hq. apply core_call_d_1_raises; [assumption |].
      apply d_1_log_domain; assumption.
    + intros HK Hq Hs. apply core_call_live_invalid; assumption.
Qed.

Lemma invalid_option_type_outcomes_witness :
  option_price logistic_cdf "straddle" 105 100 0 0.05 0.2 = Raise bad_option_type /\
  delta logistic_cdf "straddle" 105 100 1 0.05 0.2 = Raise bad_option_type /\
  rho logistic_cdf "straddle" (-105) 100 1 0.05 0.2 = Raise math_domain_error.
Proof.
  split; [| split].
  - destruct (invalid_option_type_outcomes logistic_cdf "straddle" 105 100 0 0.05 0.2)
      as (Hexpired & _); [reflexivity | reflexivity |].
    apply Hexpired; lra.
  - destruct (invalid_option_type_outcomes logistic_cdf "straddle" 105 100 1 0.05 0.2)
      as (_ & Hlive); [reflexivity | reflexivity |].
    destruct (Hlive ltac:(lra) Delta eq_refl) as (_ & _ & _ & _ & Hraise).
    apply Hraise; lra.
  - destruct (invalid_option_type_outcomes logistic_cdf "straddle" (-105) 100 1 0.05 0.2)
      as (_ & Hlive); [reflexivity | reflexivity |].
    destruct (Hlive ltac:(lra) Rho eq_refl) as (_ & _ & _ & Hlog & _).
    apply Hlog; lra.
Defined.

(** C3 as the specification states it fails: at expiry [theta] and [rho]
    return 0 for the option type "straddle", whatever the normal CDF. *)
Lemma invalid_option_type_accepted_at_expiry :
  is_call "straddle" = false /\ is_put "straddle" = false /\
  (forall norm_cdf : R -> R,
     theta norm_cdf "straddle" 100 100 0 0.05 0.2 = Ok 0 /\
     rho norm_cdf "straddle" 100 100 0 0.05 0.2 = Ok 0).
Proof.
  split; [reflexivity |]. split; [reflexivity |].
  intros norm_cdf. split; [apply theta_expired | apply rho_expired]; lra.
Qed.

(** ** The simulator *)

Lemma getitem_ok (a : list R) (i : nat) (v : R) : a !! i = Some v -> getitem a i = Ok v.
Proof. intros H. unfold getitem. rewrite H. reflexivity. Qed.

Lemma setitem_ok (a : list R) (i : nat) (v : R) :
  (i < length a)%nat -> setitem a i v = Ok (<[i := v]> a).
Proof. intros H. unfold setitem. rewrite decide_True by assumption. reflexivity. Qed.

Lemma setitem_out_of_range (a : list R) (i : nat) (v : R) :
  (length a <= i)%nat -> setitem a i v = Raise IndexError.
Proof. intros H. unfold setitem. rewrite decide_False by lia. reflexivity. Qed.

Lemma np_empty_ok (n : nat) : np_empty (Z.of_nat n) = Ok (replicate n 0).
Proof.
  unfold np_empty.
  destruct (Z.ltb_spec (Z.of_nat n) 0) as [Hneg | _]; [lia |].
  rewrite Nat2Z.id. reflexivity.
Qed.

Lemma grid_length T n : length (grid T n) = (n + 1)%nat.
Proof. unfold grid. rewrite length_map, length_seq. reflexivity. Qed.

Lemma grid_lookup T n i : (i <= n)%nat -> grid T n !! i = Some (INR i * (T / INR n)).
Proof.
  intros Hi. unfold grid.
  rewrite list_lookup_fmap, lookup_seq_lt by lia. reflexivity.
Qed.

Lemma np_linspace_grid T n :
  (1 <= n)%nat -> np_linspace 0 T (Z.of_nat n + 1) = Ok (grid T n).
Proof.
  intros Hn. unfold np_linspace, grid.
  destruct (Z.ltb_spec (Z.of_nat n + 1) 0) as [Hneg | _]; [lia |].
  replace (Z.to_nat (Z.of_nat n + 1)) with (n + 1)%nat by lia.
  f_equal. apply map_ext_in. intros i Hi. apply in_seq in Hi.
  replace (n + 1 - 1)%nat with n by lia.
  assert (Hn0 : INR n <> 0) by (apply not_0_INR; lia).
  destruct (Nat.ltb_spec 1 (n + 1)) as [_ | Hbad]; [| lia].
  destruct (Nat.eqb_spec i n) as [-> | Hne]; simpl.
  - field. assumption.
  - rewrite Rminus_0_r. lra.
Qed.

Lemma for_each_cons {A B : Type} (x : A) (xs : list A) (body : A -> B -> result B) (acc : B) :
  for_each (x :: xs) body acc = (body x acc ≫= for_each xs body).
Proof. reflexivity. Qed.

(** With a positive spot, strike and volatility and a valid option type,
    every Core operation returns, at every [T]. *)
Lemma core_call_total norm_cdf op ot Si K T r sigma :
  0 < Si -> 0 < K -> 0 < sigma ->
  is_call ot = true \/ is_put ot = true ->
  exists v, core_call norm_cdf op ot Si K T r sigma = Ok v.
Proof.
  intros HS HK Hsig Hot.
  destruct (Rle_dec T 0) as [Hexp | Hlive].
  - destruct op; simpl.
    + destruct Hot as [Hc | Hp]; eexists;
        [apply option_price_expired_call | apply option_price_expired_put]; assumption.
    + destruct (is_call ot) eqn:Hc; eexists;
        [apply delta_expired_call | apply delta_expired_not_call]; assumption.
    + eexists. apply gamma_expired; assumption.
    + eexists. apply vega_expired; assumption.
    + eexists. apply theta_expired; assumption.
    + eexists. apply rho_expired; assumption.
  - destruct (pos_ratio Si K HS HK) as [HK0 Hq].
    apply core_call_live_valid; try assumption; lra.
Qed.

Section SimulatorProofs.

Variable norm_cdf : R -> R.
Variable RandomState : Type.
Variable np_random_seed : Z -> result RandomState.
Variable np_random_randn : RandomState -> R * RandomState.

(** The first loop: it never raises while [i + 1] stays inside the array,
    keeps the length and cell 0, and every cell it has reached is positive. *)
Lemma spot_loop_ok r sigma dt : forall (n a : nat) (Ss : list R) (g : RandomState),
  (a + n < length Ss)%nat ->
  (forall j, (j <= a)%nat -> exists v, Ss !! j = Some v /\ 0 < v) ->
  exists Ss' g',
    sim_for_each (seq a n) (spot_step np_random_randn r sigma dt) Ss g = (Ok Ss', g') /\
    length Ss' = length Ss /\
    Ss' !! 0%nat = Ss !! 0%nat /\
    (forall j, (j <= a + n)%nat -> exists v, Ss' !! j = Some v /\ 0 < v).
Proof.
  induction n as [| n IH]; intros a Ss g Hlen Hpos.
  - exists Ss, g. simpl. repeat split; try reflexivity.
    intros j Hj. apply Hpos. lia.
  - destruct (Hpos a (Nat.le_refl a)) as (Sa & Ha & HSa).
    destruct (np_random_randn g) as [z g1] eqn:Hz.
    set (v := Sa * exp ((r - 0.5 * sigma ^ 2) * dt + sigma * sqrt dt * z)).
    assert (Hv : 0 < v).
    { unfold v. apply Rmult_lt_0_compat; [assumption | apply exp_pos]. }
    destruct (IH (Datatypes.S a) (<[(a + 1)%nat := v]> Ss) g1) as (Ss' & g' & Hrun & Hl & H0 & Hall).
    { rewrite length_insert. lia. }
    { intros j Hj. destruct (decide (j = a + 1)%nat) as [-> | Hne].
      - exists v. split; [| assumption].
        apply list_lookup_insert_eq. lia.
      - rewrite list_lookup_insert_ne by lia. apply Hpos. lia. }
    exists Ss', g'. repeat split.
    + simpl. unfold sim_bind at 1. unfold spot_step at 1.
      unfold sim_bind at 1. unfold randn. rewrite Hz.
      unfold lift. rewrite (getitem_ok _ _ _ Ha). rewrite bind_Ok.
      rewrite setitem_ok by lia. fold v. exact Hrun.
    + rewrite Hl, length_insert. reflexivity.
    + rewrite H0. apply list_lookup_insert_ne. lia.
    + intros j Hj. apply Hall. lia.
Qed.

Section GreeksLoop.

Variables (ot : string) (Ss : list R) (K T r sigma : R).
Hypothesis strike_pos : 0 < K.
Hypothesis sigma_pos : 0 < sigma.
Hypothesis ot_valid : is_call ot = true \/ is_put ot = true.

(** One pass of the second loop's body: the six values are the six Core
    results at [(S[i], K, max(T - t, 0), r, sigma)], each stored at [i]. *)
Lemma greeks_step_ok (i : nat) (t : R) (A : greek_arrays) (Si : R) :
  Ss !! i = Some Si -> 0 < Si ->
  (forall op, (i < length (array_of op A))%nat) ->
  exists A',
    greeks_step norm_cdf ot Ss K T r sigma (i, t) A = Ok A' /\
    forall op, exists v,
      core_call norm_cdf op ot Si K (py_max (T - t) 0) r sigma = Ok v /\
      array_of op A' = <[i := v]> (array_of op A).
Proof.
  intros Hi HSi Hlen.
  pose proof (fun op => core_call_total norm_cdf op ot Si K (py_max (T - t) 0) r sigma
                          HSi strike_pos sigma_pos ot_valid) as Htot.
  destruct (Htot Price) as (p & Hp). destruct (Htot Delta) as (d & Hd).
  destruct (Htot Gamma) as (g & Hg). destruct (Htot Vega) as (v & Hv).
  destruct (Htot Theta) as (th & Hth). destruct (Htot Rho) as (rh & Hrh).
  simpl in Hp, Hd, Hg, Hv, Hth, Hrh.
  pose proof (Hlen Price) as Lp. pose proof (Hlen Delta) as Ld.
  pose proof (Hlen Gamma) as Lg. pose proof (Hlen Vega) as Lv.
  pose proof (Hlen Theta) as Lth. pose proof (Hlen Rho) as Lrh.
  simpl in Lp, Ld, Lg, Lv, Lth, Lrh.
  eexists. split.
  - unfold greeks_step.
    rewrite (getitem_ok _ _ _ Hi), bind_Ok.
    rewrite Hp, bind_Ok, setitem_ok, bind_Ok by assumption.
    rewrite Hd, bind_Ok, setitem_ok, bind_Ok by assumption.
    rewrite Hg, bind_Ok, setitem_ok, bind_Ok by assumption.
    rewrite Hv, bind_Ok, setitem_ok, bind_Ok by assumption.
    rewrite Hth, bind_Ok, setitem_ok, bind_Ok by assumption.
    rewrite Hrh, bind_Ok, setitem_ok, bind_Ok by assumption.
    reflexivity.
  - intros op. destruct op; simpl; eexists; (split; [eassumption | reflexivity]).
Qed.

(** The second loop over the pairs [(a, t_0), (a+1, t_1), ...]. *)
Lemma greeks_loop_ok : forall (ts : list R) (a : nat) (A : greek_arrays),
  (forall k, (k < length ts)%nat -> exists Si, Ss !! (a + k)%nat = Some Si /\ 0 < Si) ->
  (forall op, (a + length ts <= length (array_of op A))%nat) ->
  exists A',
    for_each (enumerate_from a ts) (greeks_step norm_cdf ot Ss K T r sigma) A = Ok A' /\
    (forall op, length (array_of op A') = length (array_of op A)) /\
    (forall op j, (j < a)%nat -> array_of op A' !! j = array_of op A !! j) /\
    (forall k t, ts !! k = Some t ->
       exists Si, Ss !! (a + k)%nat = Some Si /\
         forall op, exists v,
           core_call norm_cdf op ot Si K (py_max (T - t) 0) r sigma = Ok v /\
           array_of op A' !! (a + k)%nat = Some v).
Proof.
  induction ts as [| t ts IH]; intros a A Hpos Hlen.
  - exists A. simpl. repeat split; try reflexivity.
    intros k t Hk. rewrite lookup_nil in Hk. discriminate.
  - destruct (Hpos 0%nat) as (Sa & Ha & HSa); [simpl; lia |].
    rewrite Nat.add_0_r in Ha.
    destruct (greeks_step_ok a t A Sa Ha HSa) as (A1 & Hstep & Hvals).
    { intros op. specialize (Hlen op). simpl in Hlen. lia. }
    assert (Hlen1 : forall op, length (array_of op A1) = length (array_of op A)).
    { intros op. destruct (Hvals op) as (v & _ & ->). apply length_insert. }
    destruct (IH (a + 1)%nat A1) as (A' & Hrun & Hl & Hbefore & Hat).
    { intros k Hk. replace (a + 1 + k)%nat with (a + Datatypes.S k)%nat by lia.
      apply Hpos. simpl. lia. }
    { intros op. rewrite Hlen1. specialize (Hlen op). simpl in Hlen. lia. }
    exists A'. split; [| split; [| split]].
    + cbn [enumerate_from]. rewrite for_each_cons, Hstep, bind_Ok. exact Hrun.
    + intros op. rewrite Hl. apply Hlen1.
    + intros op j Hj. rewrite Hbefore by lia.
      destruct (Hvals op) as (v & _ & ->).
      apply list_lookup_insert_ne. lia.
    + intros [| k] t' Hk.
      * simpl in Hk. injection Hk as <-.
        rewrite Nat.add_0_r. exists Sa. split; [assumption |].
        intros op. destruct (Hvals op) as (v & Hv & Harr).
        exists v. split; [assumption |].
        rewrite Hbefore by lia. rewrite Harr.
        apply list_lookup_insert_eq. specialize (Hlen op). simpl in Hlen. lia.
      * simpl in Hk. destruct (Hat k t' Hk) as (Si & HSi & Hops).
        replace (a + Datatypes.S k)%nat with (a + 1 + k)%nat by lia.
        exists Si. split; assumption.
Qed.

End GreeksLoop.

End SimulatorProofs.

Lemma range_of_nat (n : nat) : range (Z.of_nat n) = seq 0 n.
Proof. unfold range. rewrite Nat2Z.id. reflexivity. Qed.

Lemma Ok_inj {A : Type} (a b : A) : Ok a = Ok b -> a = b.
Proof. intros H. injection H as ->. reflexivity. Qed.

(** C7.  For a valid call ([S0], [K], [sigma] positive, [T >= 0], a valid
    option type, [steps = n >= 1], and a seed numpy accepts or none),
    [simulate_path] returns.  The time, spot, price and five Greek sequences
    all have length [n + 1]; the time points are [i * (T / n)], so the first
    is 0 and the last is [T]; the first spot is [S0]; at every index [i] the
    price and each Greek is the result of the corresponding Core operation at
    [(S[i], K, max(T - t_i, 0), r, sigma)]; and at the last index the
    remaining time is 0, so the price is the intrinsic payoff and gamma,
    vega, theta and rho are 0. *)
Theorem simulate_path_spec
    (norm_cdf : R -> R) (RandomState : Type)
    (np_random_seed : Z -> result RandomState)
    (np_random_randn : RandomState -> R * RandomState)
    (S0 K T r sigma : R) (option_type : string) (n : nat) (seed : option Z)
    (g : RandomState) :
  0 < S0 -> 0 < K -> 0 <= T -> 0 < sigma ->
  is_call option_type = true \/ is_put option_type = true ->
  (1 <= n)%nat ->
  (forall s, seed = Some s -> exists g0, np_random_seed s = Ok g0) ->
  exists res g',
    simulate_path norm_cdf np_random_seed np_random_randn
      S0 K T r sigma option_type (Z.of_nat n) seed g = (Ok res, g') /\
    (length (times res) = (n + 1)%nat /\
     length (spots res) = (n + 1)%nat /\
     forall op, length (array_of op (greeks res)) = (n + 1)%nat) /\
    (forall i, (i <= n)%nat -> times res !! i = Some (INR i * (T / INR n))) /\
    times res !! 0%nat = Some 0 /\
    times res !! n = Some T /\
    spots res !! 0%nat = Some S0 /\
    (forall i, (i <= n)%nat ->
       exists Si ti,
         spots res !! i = Some Si /\ times res !! i = Some ti /\
         forall op, exists v,
           array_of op (greeks res) !! i = Some v /\
           core_call norm_cdf op option_type Si K (Rmax (T - ti) 0) r sigma = Ok v) /\
    (exists Sn,
       spots res !! n = Some Sn /\
       price (greeks res) !! n
         = Some (if is_call option_type then Rmax (Sn - K) 0 else Rmax (K - Sn) 0) /\
       gamma_arr (greeks res) !! n = Some 0 /\
       vega_arr (greeks res) !! n = Some 0 /\
       theta_arr (greeks res) !! n = Some 0 /\
       rho_arr (greeks res) !! n = Some 0).
Proof.
  intros HS0 HK HT Hsig Hot Hn Hseed.
  assert (HnR : INR n <> 0) by (apply not_0_INR; lia).
  (* the generator state once the optional seeding is done *)
  assert (Hstart : exists g0,
    (match seed with
     | Some s => seed_generator np_random_seed s
     | None => sim_ret tt
     end) g = (Ok tt, g0)).
  { destruct seed as [s |].
    - destruct (Hseed s eq_refl) as (g0 & Hg0). exists g0.
      unfold seed_generator. rewrite Hg0. reflexivity.
    - exists g. reflexivity. }
  destruct Hstart as (g0 & Hstart).
  set (dt := T / IZR (Z.of_nat n)).
  set (S_init := <[0%nat := S0]> (replicate (n + 1) 0)).
  assert (Hinit_len : length S_init = (n + 1)%nat).
  { unfold S_init. rewrite length_insert, length_replicate. reflexivity. }
  destruct (spot_loop_ok RandomState np_random_randn r sigma dt n 0 S_init g0)
    as (Ss & g' & Hspots & HSlen & HS0' & HSpos).
  { lia. }
  { intros j Hj. assert (j = 0%nat) as -> by lia. exists S0. split; [| assumption].
    unfold S_init. apply list_lookup_insert_eq. rewrite length_replicate. lia. }
  set (A0 := let e := np_empty_like S_init in GreekArrays e e e e e e).
  assert (HA0 : forall op, length (array_of op A0) = (n + 1)%nat).
  { intros op. destruct op; simpl; unfold np_empty_like;
      rewrite length_replicate; exact Hinit_len. }
  destruct (greeks_loop_ok norm_cdf option_type Ss K T r sigma HK Hsig Hot (grid T n) 0 A0)
    as (A & Hgreeks & HAlen & _ & HAat).
  { intros k Hk. rewrite grid_length in Hk. apply HSpos. lia. }
  { intros op. rewrite HA0, grid_length. lia. }
  exists (PathResult (grid T n) Ss A), g'.
  assert (Hat : forall i, (i <= n)%nat ->
     exists Si ti,
       Ss !! i = Some Si /\ grid T n !! i = Some ti /\
       forall op, exists v,
         array_of op A !! i = Some v /\
         core_call norm_cdf op option_type Si K (Rmax (T - ti) 0) r sigma = Ok v).
  { intros i Hi.
    destruct (HAat i _ (grid_lookup T n i Hi)) as (Si & HSi & Hops).
    exists Si, (INR i * (T / INR n)). simpl in HSi.
    split; [assumption |]. split; [apply grid_lookup; assumption |].
    intros op. destruct (Hops op) as (v & Hv & Harr).
    exists v. rewrite <- py_max_Rmax. split; assumption. }
  assert (Hlast : grid T n !! n = Some T).
  { rewrite grid_lookup by lia. f_equal. field. assumption. }
  split; [| split; [| split; [| split; [| split; [| split; [| split]]]]]]; simpl.
  - unfold simulate_path. unfold sim_bind at 1. rewrite Hstart.
    unfold sim_bind at 1. unfold lift at 1.
    rewrite py_div_ok by (rewrite <- INR_IZR_INZ; assumption).
    unfold sim_bind at 1. unfold lift at 1.
    rewrite np_linspace_grid by assumption.
    unfold sim_bind at 1. unfold lift at 1.
    replace (Z.of_nat n + 1)%Z with (Z.of_nat (n + 1)) by lia.
    rewrite np_empty_ok.
    unfold sim_bind at 1. unfold lift at 1.
    rewrite setitem_ok by (rewrite length_replicate; lia).
    fold S_init. rewrite range_of_nat.
    unfold sim_bind at 1. fold dt. rewrite Hspots.
    unfold sim_bind at 1. unfold lift at 1.
    unfold enumerate. fold A0. rewrite Hgreeks.
    reflexivity.
  - split; [apply grid_length |]. split; [lia |].
    intros op. rewrite HAlen. apply HA0.
  - intros i Hi. apply grid_lookup; assumption.
  - rewrite grid_lookup by lia. f_equal. simpl. lra.
  - exact Hlast.
  - rewrite HS0'. unfold S_init. apply list_lookup_insert_eq.
    rewrite length_replicate. lia.
  - exact Hat.
  - destruct (Hat n (Nat.le_refl n)) as (Sn & tn & HSn & Htn & Hops).
    rewrite Hlast in Htn. injection Htn as <-.
    assert (Hrem : Rmax (T - T) 0 = 0) by (rewrite Rminus_diag; apply Rmax_left; lra).
    rewrite Hrem in Hops.
    assert (H0 : (0 : R) <= 0) by lra.
    exists Sn. split; [assumption |].
    destruct (Hops Price) as (p & Hp & Hcp). destruct (Hops Gamma) as (gm & Hg & Hcg).
    destruct (Hops Vega) as (v & Hv & Hcv). destruct (Hops Theta) as (th & Hth & Hcth).
    destruct (Hops Rho) as (rh & Hrh & Hcrh).
    simpl in Hp, Hcp, Hg, Hcg, Hv, Hcv, Hth, Hcth, Hrh, Hcrh.
    rewrite gamma_expired in Hcg by assumption.
    rewrite vega_expired in Hcv by assumption.
    rewrite theta_expired in Hcth by assumption.
    rewrite rho_expired in Hcrh by assumption.
    apply Ok_inj in Hcg, Hcv, Hcth, Hcrh. subst gm v th rh.
    repeat split; try assumption.
    rewrite Hp. f_equal.
    destruct (is_call option_type) eqn:Hc.
    + rewrite option_price_expired_call in Hcp by assumption.
      apply Ok_inj in Hcp. congruence.
    + destruct Hot as [Hc' | Hp']; [congruence |].
      rewrite option_price_expired_put in Hcp by assumption.
      apply Ok_inj in Hcp. congruence.
Qed.

(** The scenario of the specification:
    [simulate_path(100, 100, 1, 0.05, 0.2, "call", steps=20, seed=42)] gives
    sequences of length 21, a first spot of 100 and a last time point [T = 1]. *)
Lemma simulate_path_spec_witness :
  exists res g',
    simulate_path logistic_cdf counter_seed counter_randn
      100 100 1 0.05 0.2 "call" 20 (Some 42%Z) 0%nat = (Ok res, g') /\
    length (times res) = 21%nat /\
    length (spots res) = 21%nat /\
    length (price (greeks res)) = 21%nat /\
    spots res !! 0%nat = Some 100 /\
    times res !! 20%nat = Some 1.
Proof.
  destruct (simulate_path_spec logistic_cdf nat counter_seed counter_randn
              100 100 1 0.05 0.2 "call" 20 (Some 42%Z) 0%nat)
    as (res & g' & Hrun & (Htimes & Hspots & Harrays) & _ & _ & Hlast & Hfirst & _);
    try lra.
  - left. reflexivity.
  - lia.
  - intros s [= <-]. eexists. reflexivity.
  - exists res, g'. split; [exact Hrun |].
    split; [exact Htimes |]. split; [exact Hspots |].
    split; [exact (Harrays Price) |]. split; assumption.
Defined.

(** A seeded run is the unseeded run from the state the seed installs; the
    state the generator had before plays no part in it. *)
Lemma simulate_path_seeded
    (norm_cdf : R -> R) (RandomState : Type)
    (np_random_seed : Z -> result RandomState)
    (np_random_randn : RandomState -> R * RandomState)
    (S0 K T r sigma : R) (option_type : string) (steps seed : Z) (g : RandomState) :
  simulate_path norm_cdf np_random_seed np_random_randn
    S0 K T r sigma option_type steps (Some seed) g
  = match np_random_seed seed with
    | Ok g0 => simulate_path norm_cdf np_random_seed np_random_randn
                 S0 K T r sigma option_type steps None g0
    | Raise e => (Raise e, g)
    end.
Proof.
  unfold simulate_path, seed_generator.
  destruct (np_random_seed seed) as [g0 | e]; reflexivity.
Qed.

(** C9.  With a seed, [simulate_path] does not depend on the state the global
    generator was in: two runs with the same seed and the same parameters,
    started from any two generator states, give the same outcome (the same
    eight sequences, or the same exception), and when numpy accepts the seed
    they also leave the generator in the same state. *)
Theorem simulate_path_reproducible
    (norm_cdf : R -> R) (RandomState : Type)
    (np_random_seed : Z -> result RandomState)
    (np_random_randn : RandomState -> R * RandomState)
    (S0 K T r sigma : R) (option_type : string) (steps seed : Z)
    (g1 g2 : RandomState) :
  fst (simulate_path norm_cdf np_random_seed np_random_randn
         S0 K T r sigma option_type steps (Some seed) g1)
  = fst (simulate_path norm_cdf np_random_seed np_random_randn
           S0 K T r sigma option_type steps (Some seed) g2)
  /\
  ((exists g0, np_random_seed seed = Ok g0) ->
   simulate_path norm_cdf np_random_seed np_random_randn
     S0 K T r sigma option_type steps (Some seed) g1
   = simulate_path norm_cdf np_random_seed np_random_randn
       S0 K T r sigma option_type steps (Some seed) g2).
Proof.
  rewrite !simulate_path_seeded.
  destruct (np_random_seed seed) as [g0 | e].
  - split; reflexivity.
  - split; [reflexivity |]. intros (g0 & Hg0). discriminate Hg0.
Qed.

(** ** Step counts below 1 *)

(** [steps = 0]: [dt = T / steps] raises before anything is allocated; the
    generator is left as it was. *)
Lemma simulate_path_zero_steps
    (norm_cdf : R -> R) (RandomState : Type)
    (np_random_seed : Z -> result RandomState)
    (np_random_randn : RandomState -> R * RandomState)
    (S0 K T r sigma : R) (option_type : string) (g : RandomState) :
  simulate_path norm_cdf np_random_seed np_random_randn
    S0 K T r sigma option_type 0 None g = (Raise ZeroDivisionError, g).
Proof.
  unfold simulate_path. unfold sim_bind at 1. unfold sim_ret at 1.
  unfold sim_bind at 1. unfold lift at 1.
  rewrite py_div_zero. reflexivity.
Qed.

(** [steps = -1]: the arrays are empty and [S[0] = S0] raises [IndexError]. *)
Lemma simulate_path_minus_one_step
    (norm_cdf : R -> R) (RandomState : Type)
    (np_random_seed : Z -> result RandomState)
    (np_random_randn : RandomState -> R * RandomState)
    (S0 K T r sigma : R) (option_type : string) (g : RandomState) :
  simulate_path norm_cdf np_random_seed np_random_randn
    S0 K T r sigma option_type (-1) None g = (Raise IndexError, g).
Proof.
  unfold simulate_path. unfold sim_bind at 1. unfold sim_ret at 1.
  unfold sim_bind at 1. unfold lift at 1.
  rewrite py_div_ok by lra.
  reflexivity.
Qed.

(** [steps < -1]: [np.linspace] refuses a negative number of samples. *)
Lemma simulate_path_negative_steps
    (norm_cdf : R -> R) (RandomState : Type)
    (np_random_seed : Z -> result RandomState)
    (np_random_randn : RandomState -> R * RandomState)
    (S0 K T r sigma : R) (option_type : string) (steps : Z) (g : RandomState) :
  (steps < -1)%Z ->
  exists msg,
    simulate_path norm_cdf np_random_seed np_random_randn
      S0 K T r sigma option_type steps None g = (Raise (ValueError msg), g).
Proof.
  intros Hsteps. eexists.
  unfold simulate_path. unfold sim_bind at 1. unfold sim_ret at 1.
  unfold sim_bind at 1. unfold lift at 1.
  rewrite py_div_ok by (apply not_0_IZR; lia).
  unfold sim_bind at 1. unfold lift at 1. unfold np_linspace.
  destruct (Z.ltb_spec (steps + 1) 0) as [_ | Hge]; [| lia].
  reflexivity.
Qed.

(** * Further properties of greeks.py *)

(** ** The distances [d_1], [d_2] and the density [pdf] *)

Lemma d_1_Ok_inv (S K T r sigma v : R) :
  d_1 S K T r sigma = Ok v ->
  K <> 0 /\ 0 < S / K /\ 0 < T /\ sigma <> 0 /\ v = d1_value S K T r sigma.
Proof.
  intros Hd.
  destruct (Req_dec_T K 0) as [-> | HK].
  { rewrite d_1_zero_strike in Hd. discriminate. }
  destruct (Rle_dec (S / K) 0) as [Hq | Hq].
  { rewrite d_1_log_domain in Hd by assumption. discriminate. }
  assert (Hq' : 0 < S / K) by lra.
  unfold d_1 in Hd.
  rewrite py_div_ok, bind_Ok, log_ok, bind_Ok in Hd by assumption.
  destruct (Rlt_dec T 0) as [Hneg | Hnn].
  { rewrite math_sqrt_domain in Hd by assumption. discriminate. }
  rewrite math_sqrt_ok, bind_Ok in Hd by lra.
  destruct (Req_dec_T T 0) as [-> | HT0].
  { rewrite sqrt_0 in Hd. replace (sigma * 0) with 0 in Hd by ring.
    rewrite py_div_zero in Hd. discriminate. }
  destruct (Req_dec_T sigma 0) as [-> | Hs].
  { rewrite Rmult_0_l, py_div_zero in Hd. discriminate. }
  assert (HT : 0 < T) by lra.
  pose proof (sqrt_lt_R0 T HT) as Hsqrt.
  rewrite py_div_ok in Hd by nra.
  apply Ok_inj in Hd. subst v. repeat split; assumption.
Qed.

(** X1.  With no zero divisor ([K], [sigma] and [T] all non-zero), [d_1]
    returns exactly when [S / K > 0] and [T > 0], and then returns
    [(ln(S/K) + (r + sigma^2/2) T) / (sigma sqrt(T))]; otherwise it raises
    [ValueError] ("math domain error"): from [log] when [S / K <= 0], from
    [sqrt] when [T < 0].  (What a zero divisor does depends on the type of
    the operands and is not part of the statement.) *)
Theorem d_1_outcome_without_zero_divisor (S K T r sigma : R) :
  K <> 0 -> sigma <> 0 -> T <> 0 ->
  (0 < S / K -> 0 < T -> d_1 S K T r sigma = Ok (d1_value S K T r sigma)) /\
  (S / K <= 0 -> d_1 S K T r sigma = Raise math_domain_error) /\
  (T < 0 -> d_1 S K T r sigma = Raise math_domain_error) /\
  (forall v, d_1 S K T r sigma = Ok v ->
     0 < S / K /\ 0 < T /\ v = d1_value S K T r sigma).
Proof.
  intros HK Hs HT0. split; [| split; [| split]].
  - intros Hq HT. apply d_1_ok; assumption.
  - intros Hq. apply d_1_log_domain; assumption.
  - intros HT. destruct (Rle_dec (S / K) 0) as [Hq | Hq].
    + apply d_1_log_domain; assumption.
    + unfold d_1.
      rewrite py_div_ok, bind_Ok, log_ok, bind_Ok by (try assumption; lra).
      rewrite math_sqrt_domain by assumption. reflexivity.
  - intros v Hd. apply d_1_Ok_inv in Hd.
    destruct Hd as (_ & Hq & HT & _ & Hv). repeat split; assumption.
Qed.

Lemma d_1_outcome_without_zero_divisor_witness :
  d_1 100 100 1 0.05 0.2 = Ok (d1_value 100 100 1 0.05 0.2) /\
  d_1 (-100) 100 1 0.05 0.2 = Raise math_domain_error /\
  d_1 100 100 (-1) 0.05 0.2 = Raise math_domain_error.
Proof.
  split; [| split].
  - destruct (d_1_outcome_without_zero_divisor 100 100 1 0.05 0.2)
      as (Hok & _); [lra | lra | lra |].
    apply Hok; lra.
  - destruct (d_1_outcome_without_zero_divisor (-100) 100 1 0.05 0.2)
      as (_ & Hlog & _); [lra | lra | lra |].
    apply Hlog; lra.
  - destruct (d_1_outcome_without_zero_divisor 100 100 (-1) 0.05 0.2)
      as (_ & _ & Hsqrt & _); [lra | lra | lra |].
    apply Hsqrt; lra.
Defined.

(** X2.  [d_2] follows [d_1]: where [d_1] returns [d1], [d_2] returns
    [d1 - sigma * sqrt(T)]; where [d_1] raises, [d_2] raises the same
    exception (its own [sqrt(T)] never adds one). *)
Theorem d_2_follows_d_1 (S K T r sigma : R) :
  (forall d1, d_1 S K T r sigma = Ok d1 ->
     d_2 S K T r sigma = Ok (d1 - sigma * sqrt T)) /\
  (forall e, d_1 S K T r sigma = Raise e -> d_2 S K T r sigma = Raise e).
Proof.
  split.
  - intros d1 Hd. pose proof Hd as Hdom.
    apply d_1_Ok_inv in Hdom. destruct Hdom as (_ & _ & HT & _ & _).
    unfold d_2. rewrite Hd, bind_Ok, math_sqrt_ok by lra. reflexivity.
  - intros e Hd. unfold d_2. rewrite Hd. reflexivity.
Qed.

(** X3.  [pdf] returns for every [x]; its value is positive, the same at [x] and
    [-x], and never above the value at 0. *)
Theorem pdf_positive_even_peaked (x : R) :
  exists p p0,
    pdf x = Ok p /\ pdf (- x) = Ok p /\ pdf 0 = Ok p0 /\ 0 < p <= p0.
Proof.
  exists (pdf_value x), (pdf_value 0).
  split; [apply pdf_ok |]. split; [| split; [apply pdf_ok |]].
  - rewrite pdf_ok. f_equal. unfold pdf_value. f_equal. f_equal. ring.
  - split; [apply pdf_value_pos |].
    unfold pdf_value. pose proof sqrt_2PI_pos as Hs.
    apply Rmult_le_compat_l; [apply Rlt_le, Rdiv_lt_0_compat; lra |].
    destruct (Req_dec_T x 0) as [-> | Hx]; [lra |].
    apply Rlt_le, exp_increasing. nra.
Qed.

(** ** Relations between the call and the put *)

(** X4.  At or after expiry the two payoffs differ by [S - K], for spot and strike
    of any sign: parity without the discount factor. *)
Theorem parity_at_expiry
    (norm_cdf : R -> R) (call_type put_type : string) (S K T r sigma : R) :
  T <= 0 -> is_call call_type = true -> is_put put_type = true ->
  exists c p,
    option_price norm_cdf call_type S K T r sigma = Ok c /\
    option_price norm_cdf put_type S K T r sigma = Ok p /\
    c - p = S - K.
Proof.
  intros HT Hc Hp. do 2 eexists. split; [| split].
  - apply option_price_expired_call; assumption.
  - apply option_price_expired_put; assumption.
  - unfold Rmax. destruct (Rle_dec (S - K) 0), (Rle_dec (K - S) 0); lra.
Qed.

Lemma parity_at_expiry_witness :
  exists c p,
    option_price logistic_cdf "call" 95 100 0 0.05 0.2 = Ok c /\
    option_price logistic_cdf "put" 95 100 0 0.05 0.2 = Ok p /\
    c - p = 95 - 100.
Proof.
  apply (parity_at_expiry logistic_cdf "call" "put" 95 100 0 0.05 0.2);
    first [reflexivity | lra].
Defined.

(** X5.  Before expiry the call delta exceeds the put delta by exactly 1, whatever
    the normal CDF.  At or after expiry the two differ by 1 as well, except
    at [S = K], where both are 0. *)
Theorem delta_parity
    (norm_cdf : R -> R) (call_type put_type : string) (S K T r sigma : R) :
  is_call call_type = true -> is_put put_type = true ->
  (T <= 0 \/ (K <> 0 /\ 0 < S / K /\ sigma <> 0)) ->
  exists dc dp,
    delta norm_cdf call_type S K T r sigma = Ok dc /\
    delta norm_cdf put_type S K T r sigma = Ok dp /\
    (0 < T \/ S <> K -> dc - dp = 1) /\
    (T <= 0 -> S = K -> dc = 0 /\ dp = 0).
Proof.
  intros Hc Hp Hdom.
  assert (Hpc : is_call put_type = false).
  { destruct (is_call put_type) eqn:E; [| reflexivity].
    apply call_not_put in E. congruence. }
  destruct (Rle_dec T 0) as [Hexp | Hlive].
  - do 2 eexists. split; [| split; [| split]].
    + apply delta_expired_call; assumption.
    + apply delta_expired_not_call; assumption.
    + intros [HT | HSK]; [lra |].
      destruct (Rgt_dec S K), (Rlt_dec S K); lra.
    + intros _ ->. destruct (Rgt_dec K K), (Rlt_dec K K); lra.
  - destruct Hdom as [HT | (HK & Hq & Hs)]; [lra |].
    assert (HT : 0 < T) by lra.
    do 2 eexists. split; [| split; [| split]].
    + apply delta_live_call; assumption.
    + apply delta_live_put; assumption.
    + intros _. ring.
    + intros HT'. lra.
Qed.

Lemma delta_parity_witness :
  exists dc dp,
    delta logistic_cdf "call" 100 100 1 0.05 0.2 = Ok dc /\
    delta logistic_cdf "put" 100 100 1 0.05 0.2 = Ok dp /\
    dc - dp = 1.
Proof.
  destruct (delta_parity logistic_cdf "call" "put" 100 100 1 0.05 0.2)
    as (dc & dp & Hdc & Hdp & Hdiff & _);
    [reflexivity | reflexivity | right; repeat split; lra |].
  exists dc, dp. split; [exact Hdc |]. split; [exact Hdp |]. apply Hdiff. lra.
Defined.

(** X6.  Before expiry, with a symmetric normal CDF, the call's rho exceeds the
    put's by [K T exp(-r T)] and the call's theta is below the put's by
    [r K exp(-r T)]: the rate and time derivatives of put-call parity. *)
Theorem rho_theta_parity
    (norm_cdf : R -> R) (call_type put_type : string) (S K T r sigma : R) :
  (forall x, norm_cdf (- x) = 1 - norm_cdf x) ->
  is_call call_type = true -> is_put put_type = true ->
  0 < T -> K <> 0 -> 0 < S / K -> sigma <> 0 ->
  (exists rc rp,
     rho norm_cdf call_type S K T r sigma = Ok rc /\
     rho norm_cdf put_type S K T r sigma = Ok rp /\
     rc - rp = K * T * exp (- r * T)) /\
  (exists tc tp,
     theta norm_cdf call_type S K T r sigma = Ok tc /\
     theta norm_cdf put_type S K T r sigma = Ok tp /\
     tc - tp = - r * K * exp (- r * T)).
Proof.
  intros Hsym Hc Hp HT HK Hq Hs. split.
  - do 2 eexists. split; [| split].
    + apply rho_live_call; assumption.
    + apply rho_live_put; assumption.
    + rewrite Hsym. ring.
  - do 2 eexists. split; [| split].
    + apply theta_live_call; assumption.
    + apply theta_live_put; assumption.
    + rewrite Hsym. ring.
Qed.

Lemma rho_theta_parity_witness :
  exists rc rp,
    rho logistic_cdf "call" 100 100 1 0.05 0.2 = Ok rc /\
    rho logistic_cdf "put" 100 100 1 0.05 0.2 = Ok rp /\
    rc - rp = 100 * 1 * exp (- (0.05) * 1).
Proof.
  apply (rho_theta_parity logistic_cdf "call" "put" 100 100 1 0.05 0.2);
    first [exact logistic_cdf_symmetric | reflexivity | lra].
Defined.

(** ** Relations between the Greeks *)

(** X7.  Whenever [gamma] returns a value [g], [vega] returns [S^2 sigma T g]:
    both 0 at expiry, and before it the two share the density [pdf(d1)]. *)
Theorem vega_from_gamma (S K T r sigma g : R) :
  gamma S K T r sigma = Ok g ->
  vega S K T r sigma = Ok (S ^ 2 * sigma * T * g).
Proof.
  intros Hg.
  destruct (Rle_dec T 0) as [Hexp | Hlive].
  - rewrite gamma_expired in Hg by assumption. apply Ok_inj in Hg. subst g.
    rewrite vega_expired by assumption. f_equal. ring.
  - assert (HT : 0 < T) by lra.
    destruct (d_1 S K T r sigma) as [d1 | e] eqn:Hd.
    + apply d_1_Ok_inv in Hd. destruct Hd as (HK & Hq & _ & Hs & _).
      rewrite gamma_live in Hg by assumption. apply Ok_inj in Hg. subst g.
      rewrite vega_live by assumption. f_equal.
      pose proof (sqrt_lt_R0 T HT) as Hsqrt.
      assert (HS : S <> 0) by (intros ->; unfold Rdiv in Hq; lra).
      assert (Hss : sqrt T * sqrt T = T) by (apply sqrt_sqrt; lra).
      set (p := pdf_value (d1_value S K T r sigma)). clearbody p.
      set (s := sqrt T) in *. clearbody s.
      rewrite <- Hss. field. repeat split; lra.
    + pose proof (core_call_d_1_raises (fun x => x) S K T r sigma HT
                    Gamma EmptyString e Hd) as Hraise.
      cbn [core_call] in Hraise. rewrite Hraise in Hg. discriminate.
Qed.

Lemma vega_from_gamma_witness :
  exists g,
    gamma 100 100 1 0.05 0.2 = Ok g /\
    vega 100 100 1 0.05 0.2 = Ok (100 ^ 2 * 0.2 * 1 * g).
Proof.
  destruct (core_call_live_valid logistic_cdf 100 100 1 0.05 0.2
              ltac:(lra) ltac:(lra) ltac:(lra) ltac:(lra) Gamma "call"
              (or_introl eq_refl)) as (g & Hg).
  exists g. split; [exact Hg |].
  exact (vega_from_gamma 100 100 1 0.05 0.2 g Hg).
Defined.

(** ** Bounds and signs that need only [0 <= cdf <= 1] *)

(** X8.  For a positive spot and strike, a call is never worth more than the spot
    and a put never more than the strike discounted over the time that
    remains, [K exp(-r max(T, 0))]. *)
Theorem price_upper_bounds
    (norm_cdf : R -> R) (option_type : string) (S K T r sigma : R) :
  (forall x, 0 <= norm_cdf x <= 1) ->
  0 < S -> 0 < K -> sigma <> 0 ->
  (is_call option_type = true ->
     exists c, option_price norm_cdf option_type S K T r sigma = Ok c /\ c <= S) /\
  (is_put option_type = true ->
     exists p, option_price norm_cdf option_type S K T r sigma = Ok p /\
               p <= K * exp (- r * Rmax T 0)).
Proof.
  intros Hrange HS HK Hs.
  destruct (pos_ratio S K HS HK) as [HK0 Hq].
  destruct (Rle_dec T 0) as [Hexp | Hlive].
  - split; intros Hot; eexists; split.
    + apply option_price_expired_call; assumption.
    + unfold Rmax. destruct (Rle_dec (S - K) 0); lra.
    + apply option_price_expired_put; assumption.
    + rewrite (Rmax_right T 0) by assumption.
      rewrite Rmult_0_r, exp_0.
      unfold Rmax. destruct (Rle_dec (K - S) 0); lra.
  - assert (HT : 0 < T) by lra.
    pose proof (exp_pos (- r * T)) as He.
    assert (HKe : 0 < K * exp (- r * T)) by (apply Rmult_lt_0_compat; assumption).
    split; intros Hot; eexists; split.
    + apply option_price_live_call; assumption.
    + pose proof (Hrange (d1_value S K T r sigma)) as H1.
      pose proof (Hrange (d2_value S K T r sigma)) as H2.
      nra.
    + apply option_price_live_put; assumption.
    + rewrite (Rmax_left T 0) by lra.
      pose proof (Hrange (- d1_value S K T r sigma)) as H1.
      pose proof (Hrange (- d2_value S K T r sigma)) as H2.
      nra.
Qed.

Lemma price_upper_bounds_witness :
  (exists c, option_price logistic_cdf "call" 100 100 1 0.05 0.2 = Ok c /\ c <= 100) /\
  (exists p, option_price logistic_cdf "put" 100 100 1 0.05 0.2 = Ok p /\
             p <= 100 * exp (- (0.05) * Rmax 1 0)).
Proof.
  split.
  - apply (price_upper_bounds logistic_cdf "call" 100 100 1 0.05 0.2);
      first [exact logistic_cdf_range | reflexivity | lra].
  - apply (price_upper_bounds logistic_cdf "put" 100 100 1 0.05 0.2);
      first [exact logistic_cdf_range | reflexivity | lra].
Defined.

(** X9.  For a positive spot and strike, the rho of a call is never negative and
    the rho of a put never positive, at every [T]. *)
Theorem rho_sign
    (norm_cdf : R -> R) (option_type : string) (S K T r sigma : R) :
  (forall x, 0 <= norm_cdf x <= 1) ->
  0 < S -> 0 < K -> sigma <> 0 ->
  (is_call option_type = true ->
     exists v, rho norm_cdf option_type S K T r sigma = Ok v /\ 0 <= v) /\
  (is_put option_type = true ->
     exists v, rho norm_cdf option_type S K T r sigma = Ok v /\ v <= 0).
Proof.
  intros Hrange HS HK Hs.
  destruct (pos_ratio S K HS HK) as [HK0 Hq].
  destruct (Rle_dec T 0) as [Hexp | Hlive].
  - split; intros Hot; exists 0; (split; [apply rho_expired; assumption | lra]).
  - assert (HT : 0 < T) by lra.
    pose proof (exp_pos (- r * T)) as He.
    assert (HKT : 0 < K * T * exp (- r * T)).
    { repeat apply Rmult_lt_0_compat; assumption. }
    split; intros Hot; eexists; split.
    + apply rho_live_call; assumption.
    + pose proof (Hrange (d2_value S K T r sigma)). nra.
    + apply rho_live_put; assumption.
    + pose proof (Hrange (- d2_value S K T r sigma)). nra.
Qed.

Lemma rho_sign_witness :
  (exists v, rho logistic_cdf "call" 100 100 1 0.05 0.2 = Ok v /\ 0 <= v) /\
  (exists v, rho logistic_cdf "put" 100 100 1 0.05 0.2 = Ok v /\ v <= 0).
Proof.
  split.
  - apply (rho_sign logistic_cdf "call" 100 100 1 0.05 0.2);
      first [exact logistic_cdf_range | reflexivity | lra].
  - apply (rho_sign logistic_cdf "put" 100 100 1 0.05 0.2);
      first [exact logistic_cdf_range | reflexivity | lra].
Defined.

(** ** How the result depends on the arguments *)

(** X10.  The option type matters only through its lower-cased spelling: two
    strings that lower-case to the same string give the same outcome, value
    or exception, in all six operations. *)
Theorem core_call_case_insensitive
    (norm_cdf : R -> R) (op : core_op) (ot1 ot2 : string) (S K T r sigma : R) :
  lower ot1 = lower ot2 ->
  core_call norm_cdf op ot1 S K T r sigma = core_call norm_cdf op ot2 S K T r sigma.
Proof.
  intros Hlow.
  assert (Hc : is_call ot1 = is_call ot2) by (unfold is_call; rewrite Hlow; reflexivity).
  assert (Hp : is_put ot1 = is_put ot2) by (unfold is_put; rewrite Hlow; reflexivity).
  destruct op; simpl; unfold option_price, delta, theta, rho;
    rewrite ?Hc, ?Hp; reflexivity.
Qed.

Lemma core_call_case_insensitive_witness :
  option_price logistic_cdf "PuT" 100 100 1 0.05 0.2
  = option_price logistic_cdf "put" 100 100 1 0.05 0.2.
Proof.
  apply (core_call_case_insensitive logistic_cdf Price "PuT" "put" 100 100 1 0.05 0.2).
  reflexivity.
Defined.

Lemma py_div_scale (c x y : R) : c <> 0 -> py_div (c * x) (c * y) = py_div x y.
Proof.
  intros Hc. unfold py_div.
  destruct (Req_dec_T y 0) as [Hy | Hy], (Req_dec_T (c * y) 0) as [Hz | Hz];
    try reflexivity.
  - subst y. rewrite Rmult_0_r in Hz. contradiction.
  - apply Rmult_integral in Hz. destruct Hz; contradiction.
  - f_equal. field. split; assumption.
Qed.

Lemma d_1_scale (c S K T r sigma : R) :
  c <> 0 -> d_1 (c * S) (c * K) T r sigma = d_1 S K T r sigma.
Proof. intros Hc. unfold d_1. rewrite py_div_scale by assumption. reflexivity. Qed.

Lemma d_2_scale (c S K T r sigma : R) :
  c <> 0 -> d_2 (c * S) (c * K) T r sigma = d_2 S K T r sigma.
Proof. intros Hc. unfold d_2. rewrite d_1_scale by assumption. reflexivity. Qed.

(** X11.  Changing the unit of account: multiplying spot and strike by the same
    [c > 0] multiplies the price by [c] and leaves delta as it is; an
    exception raised at [(S, K)] is raised at [(c S, c K)] as well. *)
Theorem price_delta_scaling
    (norm_cdf : R -> R) (option_type : string) (c S K T r sigma : R) :
  0 < c ->
  (forall p, option_price norm_cdf option_type S K T r sigma = Ok p ->
     option_price norm_cdf option_type (c * S) (c * K) T r sigma = Ok (c * p)) /\
  (forall e, option_price norm_cdf option_type S K T r sigma = Raise e ->
     option_price norm_cdf option_type (c * S) (c * K) T r sigma = Raise e) /\
  delta norm_cdf option_type (c * S) (c * K) T r sigma
  = delta norm_cdf option_type S K T r sigma.
Proof.
  intros Hc. assert (Hc0 : c <> 0) by lra.
  assert (Hmax : forall a b, py_max (c * a - c * b) 0 = c * py_max (a - b) 0).
  { intros a b. unfold py_max.
    destruct (Rlt_dec (c * a - c * b) 0), (Rlt_dec (a - b) 0); nra. }
  split; [| split].
  - intros p. unfold option_price.
    rewrite d_1_scale, d_2_scale by assumption.
    destruct (Rle_dec T 0).
    + rewrite !Hmax.
      destruct (is_call option_type); [| destruct (is_put option_type)];
        intros H; try discriminate H; apply Ok_inj in H; subst p; reflexivity.
    + destruct (d_1 S K T r sigma) as [d1 | e1]; [| discriminate].
      destruct (d_2 S K T r sigma) as [d2 | e2]; [| discriminate].
      rewrite !bind_Ok.
      destruct (is_call option_type); [| destruct (is_put option_type)];
        intros H; try discriminate H; apply Ok_inj in H; subst p;
        unfold mret, result_ret; f_equal; ring.
  - intros e. unfold option_price.
    rewrite d_1_scale, d_2_scale by assumption.
    destruct (Rle_dec T 0).
    + destruct (is_call option_type); [| destruct (is_put option_type)];
        intros H; try discriminate H; exact H.
    + destruct (d_1 S K T r sigma) as [d1 | e1]; [| intros H; exact H].
      destruct (d_2 S K T r sigma) as [d2 | e2]; [| intros H; exact H].
      rewrite !bind_Ok.
      destruct (is_call option_type); [| destruct (is_put option_type)];
        intros H; try discriminate H; exact H.
  - unfold delta. rewrite d_1_scale by assumption.
    destruct (Rle_dec T 0); [| reflexivity].
    destruct (Rgt_dec (c * S) (c * K)), (Rgt_dec S K),
             (Rlt_dec (c * S) (c * K)), (Rlt_dec S K);
      try reflexivity; nra.
Qed.

Lemma price_delta_scaling_witness :
  delta logistic_cdf "call" (100 * 1.05) (100 * 1) 1 0.05 0.2
  = delta logistic_cdf "call" 1.05 1 1 0.05 0.2.
Proof.
  apply (price_delta_scaling logistic_cdf "call" 100 1.05 1 1 0.05 0.2). lra.
Defined.

Lemma d1_value_neg_sigma (S K T r sigma : R) :
  0 < T -> sigma <> 0 ->
  d1_value S K T r (- sigma) = - d1_value S K T r sigma /\
  d2_value S K T r (- sigma) = - d2_value S K T r sigma.
Proof.
  intros HT Hs. pose proof (sqrt_lt_R0 T HT) as Hsqrt.
  unfold d2_value, d1_value.
  set (l := ln (S / K)). set (s := sqrt T) in *. clearbody l s.
  split; field; lra.
Qed.

(** X12.  What a negative volatility silently produces: before expiry, the call
    formula at [-sigma] returns minus the put price at [sigma], and the put
    formula at [-sigma] minus the call price at [sigma]. *)
Theorem negative_sigma_swaps_call_and_put
    (norm_cdf : R -> R) (call_type put_type : string) (S K T r sigma : R) :
  is_call call_type = true -> is_put put_type = true ->
  0 < T -> K <> 0 -> 0 < S / K -> sigma <> 0 ->
  exists c p,
    option_price norm_cdf call_type S K T r sigma = Ok c /\
    option_price norm_cdf put_type S K T r sigma = Ok p /\
    option_price norm_cdf call_type S K T r (- sigma) = Ok (- p) /\
    option_price norm_cdf put_type S K T r (- sigma) = Ok (- c).
Proof.
  intros Hc Hp HT HK Hq Hs.
  assert (Hns : - sigma <> 0) by lra.
  destruct (d1_value_neg_sigma S K T r sigma HT Hs) as [Hd1 Hd2].
  do 2 eexists. split; [| split; [| split]].
  - apply option_price_live_call; assumption.
  - apply option_price_live_put; assumption.
  - rewrite option_price_live_call by assumption.
    rewrite Hd1, Hd2. f_equal. ring.
  - rewrite option_price_live_put by assumption.
    rewrite Hd1, Hd2, !Ropp_involutive. f_equal. ring.
Qed.

Lemma negative_sigma_swaps_call_and_put_witness :
  exists c p,
    option_price logistic_cdf "call" 100 100 1 0.05 0.2 = Ok c /\
    option_price logistic_cdf "put" 100 100 1 0.05 0.2 = Ok p /\
    option_price logistic_cdf "call" 100 100 1 0.05 (- (0.2)) = Ok (- p) /\
    option_price logistic_cdf "put" 100 100 1 0.05 (- (0.2)) = Ok (- c).
Proof.
  apply (negative_sigma_swaps_call_and_put logistic_cdf "call" "put" 100 100 1 0.05 0.2);
    first [reflexivity | lra].
Defined.

(** X13.  At or after expiry [delta] raises for no input: a string that is neither
    "call" nor "put" is priced as a put. *)
Theorem delta_expired_never_raises
    (norm_cdf : R -> R) (option_type : string) (S K T r sigma : R) :
  T <= 0 ->
  exists d,
    delta norm_cdf option_type S K T r sigma = Ok d /\
    (is_call option_type = false ->
       forall put_type, is_put put_type = true ->
         delta norm_cdf put_type S K T r sigma = Ok d).
Proof.
  intros HT. destruct (is_call option_type) eqn:Hc.
  - eexists. split; [apply delta_expired_call; assumption | discriminate].
  - eexists. split; [apply delta_expired_not_call; assumption |].
    intros _ put_type Hp. apply delta_expired_not_call; [assumption |].
    destruct (is_call put_type) eqn:E; [| reflexivity].
    apply call_not_put in E. congruence.
Qed.

Lemma delta_expired_never_raises_witness :
  exists d,
    delta logistic_cdf "straddle" 95 100 0 0.05 0.2 = Ok d /\
    delta logistic_cdf "put" 95 100 0 0.05 0.2 = Ok d.
Proof.
  destruct (delta_expired_never_raises logistic_cdf "straddle" 95 100 0 0.05 0.2)
    as (d & Hd & Hput); [lra |].
  exists d. split; [exact Hd |]. apply Hput; reflexivity.
Defined.

(** * Further properties of simulation.py *)

Section SimulatorRuns.

Variable norm_cdf : R -> R.
Variable RandomState : Type.
Variable np_random_seed : Z -> result RandomState.
Variable np_random_randn : RandomState -> R * RandomState.

(** The first loop again, now with what it writes: it draws once per step,
    in order, and cell [i + 1] is the geometric-Brownian-motion step from
    cell [i] with the [i]-th draw. *)
Lemma spot_loop_recurrence r sigma dt : forall (n a : nat) (Ss : list R) (g : RandomState),
  (a + n < length Ss)%nat ->
  exists Ss',
    sim_for_each (seq a n) (spot_step np_random_randn r sigma dt) Ss g
    = (Ok Ss', generator_after np_random_randn n g) /\
    (forall j, (j <= a)%nat -> Ss' !! j = Ss !! j) /\
    (forall k, (k < n)%nat ->
       exists u, Ss' !! (a + k)%nat = Some u /\
                 Ss' !! (a + k + 1)%nat
                 = Some (gbm_step r sigma dt (draw np_random_randn k g) u)).
Proof.
  induction n as [| n IH]; intros a Ss g Hlen.
  - exists Ss. split; [reflexivity |]. split; [reflexivity |]. intros k Hk. lia.
  - destruct (lookup_lt_is_Some_2 Ss a) as (Sa & Ha); [lia |].
    destruct (np_random_randn g) as [z g1] eqn:Hz.
    set (v := gbm_step r sigma dt z Sa).
    destruct (IH (Datatypes.S a) (<[(a + 1)%nat := v]> Ss) g1) as (Ss' & Hrun & Hkeep & Hrec).
    { rewrite length_insert. lia. }
    assert (Hg1 : generator_after np_random_randn (Datatypes.S n) g
                  = generator_after np_random_randn n g1).
    { simpl. rewrite Hz. reflexivity. }
    exists Ss'. split; [| split].
    + rewrite Hg1. cbn [seq sim_for_each].
      unfold sim_bind at 1. unfold spot_step at 1.
      unfold sim_bind at 1. unfold randn. rewrite Hz.
      unfold lift. rewrite (getitem_ok _ _ _ Ha). rewrite bind_Ok.
      rewrite setitem_ok by lia. exact Hrun.
    + intros j Hj. rewrite Hkeep by lia. apply list_lookup_insert_ne. lia.
    + intros [| k] Hk.
      * rewrite Nat.add_0_r. exists Sa. split.
        -- rewrite Hkeep by lia. rewrite list_lookup_insert_ne by lia. assumption.
        -- rewrite Hkeep by lia. unfold draw. simpl. rewrite Hz. simpl.
           apply list_lookup_insert_eq. lia.
      * destruct (Hrec k) as (u & Hu & Hnext); [lia |].
        exists u. replace (a + Datatypes.S k)%nat with (Datatypes.S a + k)%nat by lia.
        split; [assumption |].
        rewrite Hnext. unfold draw. simpl. rewrite Hz. reflexivity.
Qed.

(** A run with [steps = n >= 1], by its three stages: the seeding, the first
    loop from the initial [S], the second loop over the time grid. *)
Lemma simulate_path_run (S0 K T r sigma : R) (option_type : string) (n : nat)
    (seed : option Z) (g g0 : RandomState) :
  (1 <= n)%nat ->
  start_state np_random_seed seed g = Ok g0 ->
  simulate_path norm_cdf np_random_seed np_random_randn
    S0 K T r sigma option_type (Z.of_nat n) seed g
  = match sim_for_each (seq 0 n) (spot_step np_random_randn r sigma (T / INR n))
            (initial_spots n S0) g0 with
    | (Ok Ss, g') =>
        match for_each (enumerate (grid T n))
                (greeks_step norm_cdf option_type Ss K T r sigma) (initial_arrays n) with
        | Ok A => (Ok (PathResult (grid T n) Ss A), g')
        | Raise e => (Raise e, g')
        end
    | (Raise e, g') => (Raise e, g')
    end.
Proof.
  intros Hn Hstart.
  assert (HnR : INR n <> 0) by (apply not_0_INR; lia).
  assert (Hseed : (match seed with
                   | Some s => seed_generator np_random_seed s
                   | None => sim_ret tt
                   end) g = (Ok tt, g0)).
  { destruct seed as [s |]; simpl in Hstart.
    - unfold seed_generator. rewrite Hstart. reflexivity.
    - apply Ok_inj in Hstart. subst g0. reflexivity. }
  unfold simulate_path. unfold sim_bind at 1. rewrite Hseed.
  unfold sim_bind at 1. unfold lift at 1.
  rewrite py_div_ok by (rewrite <- INR_IZR_INZ; assumption).
  unfold sim_bind at 1. unfold lift at 1.
  rewrite np_linspace_grid by assumption.
  unfold sim_bind at 1. unfold lift at 1.
  replace (Z.of_nat n + 1)%Z with (Z.of_nat (n + 1)) by lia.
  rewrite np_empty_ok.
  unfold sim_bind at 1. unfold lift at 1.
  rewrite setitem_ok by (rewrite length_replicate; lia).
  fold (initial_spots n S0). rewrite range_of_nat.
  unfold np_empty_like.
  replace (length (initial_spots n S0)) with (n + 1)%nat
    by (unfold initial_spots; rewrite length_insert, length_replicate; reflexivity).
  fold (initial_arrays n).
  rewrite <- INR_IZR_INZ.
  unfold sim_bind at 1.
  destruct (sim_for_each (seq 0 n) (spot_step np_random_randn r sigma (T / INR n))
              (initial_spots n S0) g0) as [[Ss | e] g']; [| reflexivity].
  unfold sim_bind at 1. unfold lift at 1.
  destruct (for_each (enumerate (grid T n))
              (greeks_step norm_cdf option_type Ss K T r sigma) (initial_arrays n));
    reflexivity.
Qed.

End SimulatorRuns.

Lemma initial_spots_length n S0 : length (initial_spots n S0) = (n + 1)%nat.
Proof. unfold initial_spots. rewrite length_insert, length_replicate. reflexivity. Qed.

Lemma initial_spots_first n S0 : initial_spots n S0 !! 0%nat = Some S0.
Proof.
  unfold initial_spots. apply list_lookup_insert_eq. rewrite length_replicate. lia.
Qed.

Lemma initial_arrays_length n op : length (array_of op (initial_arrays n)) = (n + 1)%nat.
Proof. destruct op; simpl; apply length_replicate. Qed.

(** The first loop of a run from a positive [S0]: it always completes, after
    exactly [n] draws, and leaves positive spots linked by the recurrence. *)
Lemma spot_path_facts (RandomState : Type)
    (np_random_randn : RandomState -> R * RandomState)
    (S0 r sigma dt : R) (n : nat) (g0 : RandomState) :
  0 < S0 ->
  exists Ss,
    sim_for_each (seq 0 n) (spot_step np_random_randn r sigma dt) (initial_spots n S0) g0
    = (Ok Ss, generator_after np_random_randn n g0) /\
    length Ss = (n + 1)%nat /\
    Ss !! 0%nat = Some S0 /\
    (forall j, (j <= n)%nat -> exists v, Ss !! j = Some v /\ 0 < v) /\
    (forall k, (k < n)%nat ->
       exists u, Ss !! k = Some u /\
                 Ss !! (k + 1)%nat
                 = Some (gbm_step r sigma dt (draw np_random_randn k g0) u)).
Proof.
  intros HS0.
  destruct (spot_loop_recurrence RandomState np_random_randn r sigma dt n 0
              (initial_spots n S0) g0) as (Ss & Hrun & _ & Hrec).
  { rewrite initial_spots_length. lia. }
  destruct (spot_loop_ok RandomState np_random_randn r sigma dt n 0
              (initial_spots n S0) g0) as (Ss2 & g2 & Hrun2 & Hlen & Hfirst & Hpos).
  { rewrite initial_spots_length. lia. }
  { intros j Hj. assert (j = 0%nat) as -> by lia.
    exists S0. split; [apply initial_spots_first | assumption]. }
  rewrite Hrun in Hrun2. injection Hrun2 as <- _.
  exists Ss. split; [exact Hrun |].
  split; [rewrite Hlen; apply initial_spots_length |].
  split; [rewrite Hfirst; apply initial_spots_first |].
  split; [exact Hpos |]. exact Hrec.
Qed.

(** A valid run, stage by stage. *)
Lemma simulate_path_valid_run
    (norm_cdf : R -> R) (RandomState : Type)
    (np_random_seed : Z -> result RandomState)
    (np_random_randn : RandomState -> R * RandomState)
    (S0 K T r sigma : R) (option_type : string) (n : nat) (seed : option Z)
    (g g0 : RandomState) :
  0 < S0 -> 0 < K -> 0 < sigma ->
  is_call option_type = true \/ is_put option_type = true ->
  (1 <= n)%nat ->
  start_state np_random_seed seed g = Ok g0 ->
  exists Ss A,
    simulate_path norm_cdf np_random_seed np_random_randn
      S0 K T r sigma option_type (Z.of_nat n) seed g
    = (Ok (PathResult (grid T n) Ss A), generator_after np_random_randn n g0) /\
    sim_for_each (seq 0 n) (spot_step np_random_randn r sigma (T / INR n))
      (initial_spots n S0) g0
    = (Ok Ss, generator_after np_random_randn n g0) /\
    (forall op, length (array_of op A) = (n + 1)%nat) /\
    (forall i, (i <= n)%nat ->
       exists Si, Ss !! i = Some Si /\ 0 < Si /\
         forall op, exists v,
           core_call norm_cdf op option_type Si K
             (py_max (T - INR i * (T / INR n)) 0) r sigma = Ok v /\
           array_of op A !! i = Some v).
Proof.
  intros HS0 HK Hsig Hot Hn Hstart.
  destruct (spot_path_facts RandomState np_random_randn S0 r sigma (T / INR n) n g0 HS0)
    as (Ss & Hspots & HSlen & _ & HSpos & _).
  destruct (greeks_loop_ok norm_cdf option_type Ss K T r sigma HK Hsig Hot
              (grid T n) 0 (initial_arrays n)) as (A & Hgreeks & HAlen & _ & HAat).
  { intros k Hk. rewrite grid_length in Hk. apply HSpos. lia. }
  { intros op. rewrite initial_arrays_length, grid_length. lia. }
  exists Ss, A. split; [| split; [exact Hspots | split]].
  - rewrite (simulate_path_run norm_cdf RandomState np_random_seed np_random_randn
               S0 K T r sigma option_type n seed g g0 Hn Hstart).
    rewrite Hspots. unfold enumerate. rewrite Hgreeks. reflexivity.
  - intros op. rewrite HAlen. apply initial_arrays_length.
  - intros i Hi.
    destruct (HAat i _ (grid_lookup T n i Hi)) as (Si & HSi & Hops).
    simpl in HSi. exists Si. split; [assumption |].
    destruct (HSpos i Hi) as (v & Hv & Hvpos).
    split; [congruence |]. exact Hops.
Qed.

(** The body of the second loop stops at its first statement when the
    pricing call raises. *)
Lemma greeks_step_price_raises
    (norm_cdf : R -> R) (option_type : string) (Ss : list R) (K T r sigma : R)
    (i : nat) (t : R) (A : greek_arrays) (Si : R) (e : exn) :
  Ss !! i = Some Si ->
  option_price norm_cdf option_type Si K (py_max (T - t) 0) r sigma = Raise e ->
  greeks_step norm_cdf option_type Ss K T r sigma (i, t) A = Raise e.
Proof.
  intros Hi Hprice. unfold greeks_step.
  rewrite (getitem_ok _ _ _ Hi), bind_Ok, Hprice. reflexivity.
Qed.

(** ** The simulated path *)

(** X14.  A valid run makes exactly [n = steps] draws, in order, from the state its
    seed installs (or, without a seed, the state it finds), and leaves the
    generator [n] draws further.  Every simulated spot is positive, and each
    is the previous one times
    [exp((r - sigma^2/2) dt + sigma sqrt(dt) z_i)] with [dt = T / n] and
    [z_i] the [i]-th draw. *)
Theorem simulate_path_follows_gbm
    (norm_cdf : R -> R) (RandomState : Type)
    (np_random_seed : Z -> result RandomState)
    (np_random_randn : RandomState -> R * RandomState)
    (S0 K T r sigma : R) (option_type : string) (n : nat) (seed : option Z)
    (g g0 : RandomState) :
  0 < S0 -> 0 < K -> 0 <= T -> 0 < sigma ->
  is_call option_type = true \/ is_put option_type = true ->
  (1 <= n)%nat ->
  start_state np_random_seed seed g = Ok g0 ->
  exists res,
    simulate_path norm_cdf np_random_seed np_random_randn
      S0 K T r sigma option_type (Z.of_nat n) seed g
    = (Ok res, generator_after np_random_randn n g0) /\
    (forall i, (i < n)%nat ->
       exists u,
         spots res !! i = Some u /\ 0 < u /\
         spots res !! (i + 1)%nat
         = Some (u * exp ((r - 0.5 * sigma ^ 2) * (T / INR n)
                          + sigma * sqrt (T / INR n) * draw np_random_randn i g0))).
Proof.
  intros HS0 HK HT Hsig Hot Hn Hstart.
  destruct (simulate_path_valid_run norm_cdf RandomState np_random_seed np_random_randn
              S0 K T r sigma option_type n seed g g0 HS0 HK Hsig Hot Hn Hstart)
    as (Ss & A & Hrun & Hspots & _ & _).
  destruct (spot_path_facts RandomState np_random_randn S0 r sigma (T / INR n) n g0 HS0)
    as (Ss' & Hspots' & _ & _ & Hpos & Hrec).
  rewrite Hspots in Hspots'. injection Hspots' as <-.
  exists (PathResult (grid T n) Ss A). split; [exact Hrun |].
  intros i Hi. simpl.
  destruct (Hrec i Hi) as (u & Hu & Hnext).
  destruct (Hpos i) as (u' & Hu' & Hupos); [lia |].
  exists u. split; [assumption |]. split; [congruence |]. exact Hnext.
Qed.

Lemma simulate_path_follows_gbm_witness :
  exists res,
    simulate_path logistic_cdf counter_seed counter_randn
      100 100 1 0.05 0.2 "call" 20 (Some 42%Z) 7%nat
    = (Ok res, 62%nat) /\
    exists u,
      spots res !! 0%nat = Some u /\ 0 < u /\
      spots res !! 1%nat
      = Some (u * exp ((0.05 - 0.5 * 0.2 ^ 2) * (1 / INR 20)
                       + 0.2 * sqrt (1 / INR 20) * draw counter_randn 0 42%nat)).
Proof.
  destruct (simulate_path_follows_gbm logistic_cdf nat counter_seed counter_randn
              100 100 1 0.05 0.2 "call" 20 (Some 42%Z) 7%nat 42%nat)
    as (res & Hrun & Hrec); try lra.
  - left. reflexivity.
  - lia.
  - reflexivity.
  - exists res. split; [exact Hrun |]. apply (Hrec 0%nat). lia.
Defined.

(** X15.  An option type that is neither "call" nor "put" is noticed only by the
    first pricing call of the second loop: the run raises the option-type
    [ValueError] after the whole spot path has been drawn, so the global
    generator has advanced by [steps] draws all the same. *)
Theorem simulate_path_invalid_type_after_draws
    (norm_cdf : R -> R) (RandomState : Type)
    (np_random_seed : Z -> result RandomState)
    (np_random_randn : RandomState -> R * RandomState)
    (S0 K T r sigma : R) (option_type : string) (n : nat) (seed : option Z)
    (g g0 : RandomState) :
  0 < S0 -> 0 < K -> 0 <= T -> 0 < sigma ->
  is_call option_type = false -> is_put option_type = false ->
  (1 <= n)%nat ->
  start_state np_random_seed seed g = Ok g0 ->
  simulate_path norm_cdf np_random_seed np_random_randn
    S0 K T r sigma option_type (Z.of_nat n) seed g
  = (Raise bad_option_type, generator_after np_random_randn n g0).
Proof.
  intros HS0 HK HT Hsig Hc Hp Hn Hstart.
  rewrite (simulate_path_run norm_cdf RandomState np_random_seed np_random_randn
             S0 K T r sigma option_type n seed g g0 Hn Hstart).
  destruct (spot_path_facts RandomState np_random_randn S0 r sigma (T / INR n) n g0 HS0)
    as (Ss & Hspots & _ & Hfirst & _).
  rewrite Hspots.
  assert (Hprice : forall t,
            option_price norm_cdf option_type S0 K (py_max (T - t) 0) r sigma
            = Raise bad_option_type).
  { intros t. destruct (Rle_dec (py_max (T - t) 0) 0) as [Hexp | Hlive].
    - apply option_price_expired_invalid; assumption.
    - destruct (pos_ratio S0 K HS0 HK) as [HK0 Hq].
      change (core_call norm_cdf Price option_type S0 K (py_max (T - t) 0) r sigma
              = Raise bad_option_type).
      apply core_call_live_invalid; try assumption; try reflexivity; lra. }
  unfold enumerate, grid. replace (n + 1)%nat with (Datatypes.S n) by lia.
  cbn [seq map enumerate_from]. rewrite for_each_cons.
  rewrite (greeks_step_price_raises norm_cdf option_type Ss K T r sigma
             0 _ (initial_arrays n) S0 bad_option_type Hfirst (Hprice _)).
  reflexivity.
Qed.

Lemma simulate_path_invalid_type_after_draws_witness :
  simulate_path logistic_cdf counter_seed counter_randn
    100 100 1 0.05 0.2 "straddle" 20 None 7%nat
  = (Raise bad_option_type, 27%nat).
Proof.
  apply (simulate_path_invalid_type_after_draws logistic_cdf nat counter_seed counter_randn
           100 100 1 0.05 0.2 "straddle" 20 None 7%nat 7%nat);
    first [reflexivity | lra | lia].
Defined.

(** X16.  A step count below 1 never yields a path: [steps = 0] raises
    [ZeroDivisionError] at [dt = T / steps], [steps = -1] raises [IndexError]
    at [S[0] = S0] on the empty array, and [steps < -1] raises the
    [ValueError] of [np.linspace].  No draw is made: the generator stays in
    the state the run started from. *)
Theorem simulate_path_rejects_steps_below_one
    (norm_cdf : R -> R) (RandomState : Type)
    (np_random_seed : Z -> result RandomState)
    (np_random_randn : RandomState -> R * RandomState)
    (S0 K T r sigma : R) (option_type : string) (steps : Z) (seed : option Z)
    (g g0 : RandomState) :
  (steps < 1)%Z ->
  start_state np_random_seed seed g = Ok g0 ->
  exists e,
    simulate_path norm_cdf np_random_seed np_random_randn
      S0 K T r sigma option_type steps seed g = (Raise e, g0) /\
    (steps = 0%Z -> e = ZeroDivisionError) /\
    (steps = (-1)%Z -> e = IndexError) /\
    ((steps < -1)%Z -> exists msg, e = ValueError msg).
Proof.
  intros Hsteps Hstart.
  assert (Hunseeded : exists e,
    simulate_path norm_cdf np_random_seed np_random_randn
      S0 K T r sigma option_type steps None g0 = (Raise e, g0) /\
    (steps = 0%Z -> e = ZeroDivisionError) /\
    (steps = (-1)%Z -> e = IndexError) /\
    ((steps < -1)%Z -> exists msg, e = ValueError msg)).
  { destruct (Z.eq_dec steps 0%Z) as [-> | H0].
    { exists ZeroDivisionError. split; [apply simulate_path_zero_steps |].
      repeat split; intros; try reflexivity; lia. }
    destruct (Z.eq_dec steps (-1)%Z) as [-> | H1].
    { exists IndexError. split; [apply simulate_path_minus_one_step |].
      repeat split; intros; try reflexivity; lia. }
    destruct (simulate_path_negative_steps norm_cdf RandomState np_random_seed
                np_random_randn S0 K T r sigma option_type steps g0) as (msg & Hrun);
      [lia |].
    exists (ValueError msg). split; [exact Hrun |].
    repeat split; intros; try lia. exists msg. reflexivity. }
  destruct seed as [s |]; simpl in Hstart.
  - rewrite simulate_path_seeded, Hstart. exact Hunseeded.
  - apply Ok_inj in Hstart. subst g0. exact Hunseeded.
Qed.

Lemma simulate_path_rejects_steps_below_one_witness :
  exists e,
    simulate_path logistic_cdf counter_seed counter_randn
      100 100 1 0.05 0.2 "call" 0 (Some 42%Z) 7%nat = (Raise e, 42%nat) /\
    e = ZeroDivisionError.
Proof.
  destruct (simulate_path_rejects_steps_below_one logistic_cdf nat counter_seed
              counter_randn 100 100 1 0.05 0.2 "call" 0 (Some 42%Z) 7%nat 42%nat)
    as (e & Hrun & Hzero & _); [lia | reflexivity |].
  exists e. split; [exact Hrun | apply Hzero; reflexivity].
Defined.

(** ** The time grid and the remaining time *)

(** X17.  On the grid [np.linspace(0, T, n + 1)] the remaining time
    [max(T - t_i, 0)] is [T (n - i) / n] when [T >= 0], so the clip at 0 never
    cuts anything off, and it is 0 at every point when [T <= 0]. *)
Theorem remaining_time_on_grid (T : R) (n : nat) :
  (1 <= n)%nat ->
  exists ts,
    np_linspace 0 T (Z.of_nat n + 1) = Ok ts /\
    length ts = (n + 1)%nat /\
    forall i, (i <= n)%nat ->
      exists t,
        ts !! i = Some t /\
        (0 <= T -> py_max (T - t) 0 = T * INR (n - i) / INR n) /\
        (T <= 0 -> py_max (T - t) 0 = 0).
Proof.
  intros Hn. exists (grid T n).
  split; [apply np_linspace_grid; assumption |]. split; [apply grid_length |].
  intros i Hi. exists (INR i * (T / INR n)).
  split; [apply grid_lookup; assumption |].
  assert (HnR : 0 < INR n) by (apply lt_0_INR; lia).
  assert (Hrem : T - INR i * (T / INR n) = T * INR (n - i) / INR n).
  { rewrite minus_INR by assumption. field. lra. }
  assert (Hni : 0 <= INR (n - i) / INR n).
  { apply Rmult_le_pos; [apply pos_INR | apply Rlt_le, Rinv_0_lt_compat; assumption]. }
  rewrite Hrem. unfold py_max.
  split; intros HT; destruct (Rlt_dec (T * INR (n - i) / INR n) 0) as [Hlt | Hge];
    try reflexivity; unfold Rdiv in *; nra.
Qed.

Lemma remaining_time_on_grid_witness :
  exists ts,
    np_linspace 0 1 (Z.of_nat 4 + 1) = Ok ts /\ length ts = 5%nat /\
    exists t, ts !! 1%nat = Some t /\ py_max (1 - t) 0 = 1 * INR (4 - 1) / INR 4.
Proof.
  destruct (remaining_time_on_grid 1 4) as (ts & Hts & Hlen & Hat); [lia |].
  exists ts. split; [exact Hts |]. split; [exact Hlen |].
  destruct (Hat 1%nat) as (t & Ht & Hpos & _); [lia |].
  exists t. split; [exact Ht |]. apply Hpos. lra.
Defined.

(** ** What the output arrays hold *)

(** X18.  With [T > 0], every point of a valid run but the last is priced by the
    Black-Scholes formula itself, at the remaining time
    [tau_i = T (n - i) / n > 0]: for a call
    [S_i cdf(d1) - K exp(-r tau_i) cdf(d2)], for a put
    [K exp(-r tau_i) cdf(-d2) - S_i cdf(-d1)], with [d1], [d2] taken at
    [(S_i, K, tau_i, r, sigma)]. *)
Theorem simulate_path_prices_before_expiry
    (norm_cdf : R -> R) (RandomState : Type)
    (np_random_seed : Z -> result RandomState)
    (np_random_randn : RandomState -> R * RandomState)
    (S0 K T r sigma : R) (option_type : string) (n : nat) (seed : option Z)
    (g g0 : RandomState) :
  0 < S0 -> 0 < K -> 0 < T -> 0 < sigma ->
  is_call option_type = true \/ is_put option_type = true ->
  (1 <= n)%nat ->
  start_state np_random_seed seed g = Ok g0 ->
  exists res g',
    simulate_path norm_cdf np_random_seed np_random_randn
      S0 K T r sigma option_type (Z.of_nat n) seed g = (Ok res, g') /\
    forall i, (i < n)%nat ->
      exists Si,
        let tau := T * INR (n - i) / INR n in
        let d1 := d1_value Si K tau r sigma in
        let d2 := d2_value Si K tau r sigma in
        spots res !! i = Some Si /\ 0 < tau /\
        price (greeks res) !! i
        = Some (if is_call option_type
                then Si * norm_cdf d1 - K * exp (- r * tau) * norm_cdf d2
                else K * exp (- r * tau) * norm_cdf (- d2) - Si * norm_cdf (- d1)).
Proof.
  intros HS0 HK HT Hsig Hot Hn Hstart.
  destruct (simulate_path_valid_run norm_cdf RandomState np_random_seed np_random_randn
              S0 K T r sigma option_type n seed g g0 HS0 HK Hsig Hot Hn Hstart)
    as (Ss & A & Hrun & _ & _ & Hat).
  exists (PathResult (grid T n) Ss A), (generator_after np_random_randn n g0).
  split; [exact Hrun |].
  intros i Hi. destruct (Hat i) as (Si & HSi & HSipos & Hops); [lia |].
  exists Si. cbv zeta. simpl.
  assert (HnR : 0 < INR n) by (apply lt_0_INR; lia).
  assert (Hni : 0 < INR (n - i)) by (apply lt_0_INR; lia).
  assert (Htau : 0 < T * INR (n - i) / INR n).
  { apply Rdiv_lt_0_compat; [apply Rmult_lt_0_compat |]; assumption. }
  assert (Hrem : py_max (T - INR i * (T / INR n)) 0 = T * INR (n - i) / INR n).
  { replace (T - INR i * (T / INR n)) with (T * INR (n - i) / INR n)
      by (rewrite minus_INR by lia; field; lra).
    unfold py_max. destruct (Rlt_dec (T * INR (n - i) / INR n) 0); [lra | reflexivity]. }
  split; [assumption |]. split; [assumption |].
  destruct (Hops Price) as (p & Hp & Harr). simpl in Hp, Harr.
  rewrite Harr. f_equal. rewrite Hrem in Hp.
  destruct (pos_ratio Si K HSipos HK) as [HK0 Hq].
  assert (Hs0 : sigma <> 0) by lra.
  destruct (is_call option_type) eqn:Hc.
  - rewrite option_price_live_call in Hp by assumption.
    apply Ok_inj in Hp. congruence.
  - destruct Hot as [Hc' | Hp']; [congruence |].
    rewrite option_price_live_put in Hp by assumption.
    apply Ok_inj in Hp. congruence.
Qed.

Lemma simulate_path_prices_before_expiry_witness :
  exists res g',
    simulate_path logistic_cdf counter_seed counter_randn
      100 100 1 0.05 0.2 "call" 20 (Some 42%Z) 7%nat = (Ok res, g') /\
    exists Si,
      spots res !! 3%nat = Some Si /\
      price (greeks res) !! 3%nat
      = Some (Si * logistic_cdf (d1_value Si 100 (1 * INR (20 - 3) / INR 20) 0.05 0.2)
              - 100 * exp (- (0.05) * (1 * INR (20 - 3) / INR 20))
                * logistic_cdf (d2_value Si 100 (1 * INR (20 - 3) / INR 20) 0.05 0.2)).
Proof.
  destruct (simulate_path_prices_before_expiry logistic_cdf nat counter_seed counter_randn
              100 100 1 0.05 0.2 "call" 20 (Some 42%Z) 7%nat 42%nat)
    as (res & g' & Hrun & Hat); try lra.
  - left. reflexivity.
  - lia.
  - reflexivity.
  - exists res, g'. split; [exact Hrun |].
    destruct (Hat 3%nat) as (Si & HSi & _ & Hprice); [lia |].
    exists Si. split; [exact HSi | exact Hprice].
Defined.

(** X19.  Run from the same generator state with the same seed and parameters, a
    call and a put (any two valid option types) get the same time grid, the
    same simulated spot path, the same gamma sequence and the same vega
    sequence, and leave the generator in the same state. *)
Theorem simulate_path_call_put_share_path
    (norm_cdf : R -> R) (RandomState : Type)
    (np_random_seed : Z -> result RandomState)
    (np_random_randn : RandomState -> R * RandomState)
    (S0 K T r sigma : R) (type1 type2 : string) (n : nat) (seed : option Z)
    (g g0 : RandomState) :
  0 < S0 -> 0 < K -> 0 <= T -> 0 < sigma ->
  is_call type1 = true \/ is_put type1 = true ->
  is_call type2 = true \/ is_put type2 = true ->
  (1 <= n)%nat ->
  start_state np_random_seed seed g = Ok g0 ->
  exists res1 res2 g',
    simulate_path norm_cdf np_random_seed np_random_randn
      S0 K T r sigma type1 (Z.of_nat n) seed g = (Ok res1, g') /\
    simulate_path norm_cdf np_random_seed np_random_randn
      S0 K T r sigma type2 (Z.of_nat n) seed g = (Ok res2, g') /\
    times res1 = times res2 /\
    spots res1 = spots res2 /\
    gamma_arr (greeks res1) = gamma_arr (greeks res2) /\
    vega_arr (greeks res1) = vega_arr (greeks res2).
Proof.
  intros HS0 HK HT Hsig Hot1 Hot2 Hn Hstart.
  destruct (simulate_path_valid_run norm_cdf RandomState np_random_seed np_random_randn
              S0 K T r sigma type1 n seed g g0 HS0 HK Hsig Hot1 Hn Hstart)
    as (Ss & A1 & Hrun1 & Hspots1 & Hlen1 & Hat1).
  destruct (simulate_path_valid_run norm_cdf RandomState np_random_seed np_random_randn
              S0 K T r sigma type2 n seed g g0 HS0 HK Hsig Hot2 Hn Hstart)
    as (Ss2 & A2 & Hrun2 & Hspots2 & Hlen2 & Hat2).
  rewrite Hspots1 in Hspots2. injection Hspots2 as <-.
  assert (Hsame : forall op, takes_option_type op = false ->
            array_of op A1 = array_of op A2).
  { intros op Hop. apply list_eq. intros i.
    destruct (le_lt_dec i n) as [Hi | Hi].
    - destruct (Hat1 i Hi) as (Si & HSi & _ & Hops1).
      destruct (Hat2 i Hi) as (Si' & HSi' & _ & Hops2).
      assert (Si' = Si) as -> by congruence.
      destruct (Hops1 op) as (v1 & Hv1 & ->).
      destruct (Hops2 op) as (v2 & Hv2 & ->).
      destruct op; try discriminate Hop; simpl in Hv1, Hv2; congruence.
    - rewrite !lookup_ge_None_2; [reflexivity | |].
      + rewrite Hlen2. lia.
      + rewrite Hlen1. lia. }
  exists (PathResult (grid T n) Ss A1), (PathResult (grid T n) Ss A2),
         (generator_after np_random_randn n g0).
  split; [exact Hrun1 |]. split; [exact Hrun2 |]. simpl.
  split; [reflexivity |]. split; [reflexivity |].
  split; [exact (Hsame Gamma eq_refl) | exact (Hsame Vega eq_refl)].
Qed.

Lemma simulate_path_call_put_share_path_witness :
  exists res1 res2 g',
    simulate_path logistic_cdf counter_seed counter_randn
      100 100 1 0.05 0.2 "call" 20 (Some 42%Z) 7%nat = (Ok res1, g') /\
    simulate_path logistic_cdf counter_seed counter_randn
      100 100 1 0.05 0.2 "put" 20 (Some 42%Z) 7%nat = (Ok res2, g') /\
    times res1 = times res2 /\
    spots res1 = spots res2 /\
    gamma_arr (greeks res1) = gamma_arr (greeks res2) /\
    vega_arr (greeks res1) = vega_arr (greeks res2).
Proof.
  apply (simulate_path_call_put_share_path logistic_cdf nat counter_seed counter_randn
           100 100 1 0.05 0.2 "call" "put" 20 (Some 42%Z) 7%nat 42%nat);
    first [lra | lia | reflexivity | left; reflexivity | right; reflexivity].
Defined.

(** Parity at any [T], with the discount taken over the time that remains. *)
Lemma parity_over_remaining_time
    (norm_cdf : R -> R) (call_type put_type : string) (S K T r sigma c p : R) :
  (forall x, norm_cdf (- x) = 1 - norm_cdf x) ->
  is_call call_type = true -> is_put put_type = true ->
  0 < S -> 0 < K -> 0 < sigma ->
  option_price norm_cdf call_type S K T r sigma = Ok c ->
  option_price norm_cdf put_type S K T r sigma = Ok p ->
  c - p = S - K * exp (- r * Rmax T 0).
Proof.
  intros Hsym Hc Hp HS HK Hsig Hcall Hput.
  destruct (Rle_dec T 0) as [Hexp | Hlive].
  - rewrite option_price_expired_call in Hcall by assumption.
    rewrite option_price_expired_put in Hput by assumption.
    apply Ok_inj in Hcall, Hput. subst c p.
    rewrite (Rmax_right T 0), Rmult_0_r, exp_0 by assumption.
    unfold Rmax. destruct (Rle_dec (S - K) 0), (Rle_dec (K - S) 0); lra.
  - destruct (pos_ratio S K HS HK) as [HK0 Hq].
    rewrite option_price_live_call in Hcall by (try assumption; lra).
    rewrite option_price_live_put in Hput by (try assumption; lra).
    apply Ok_inj in Hcall, Hput. subst c p.
    rewrite (Rmax_left T 0) by lra. rewrite !Hsym. ring.
Qed.

(** X20.  Put-call parity holds along the whole simulated path: for a call run and
    a put run from the same generator state, at every index [i] the two
    prices differ by [S_i - K exp(-r tau_i)], with [tau_i = T (n - i) / n]
    the remaining time (so by [S_n - K] at the last point). *)
Theorem simulate_path_parity_along_path
    (norm_cdf : R -> R) (RandomState : Type)
    (np_random_seed : Z -> result RandomState)
    (np_random_randn : RandomState -> R * RandomState)
    (S0 K T r sigma : R) (call_type put_type : string) (n : nat) (seed : option Z)
    (g g0 : RandomState) :
  (forall x, norm_cdf (- x) = 1 - norm_cdf x) ->
  0 < S0 -> 0 < K -> 0 <= T -> 0 < sigma ->
  is_call call_type = true -> is_put put_type = true ->
  (1 <= n)%nat ->
  start_state np_random_seed seed g = Ok g0 ->
  exists rc rp g',
    simulate_path norm_cdf np_random_seed np_random_randn
      S0 K T r sigma call_type (Z.of_nat n) seed g = (Ok rc, g') /\
    simulate_path norm_cdf np_random_seed np_random_randn
      S0 K T r sigma put_type (Z.of_nat n) seed g = (Ok rp, g') /\
    forall i, (i <= n)%nat ->
      exists Si c p,
        spots rc !! i = Some Si /\ spots rp !! i = Some Si /\
        price (greeks rc) !! i = Some c /\
        price (greeks rp) !! i = Some p /\
        c - p = Si - K * exp (- r * (T * INR (n - i) / INR n)).
Proof.
  intros Hsym HS0 HK HT Hsig Hc Hp Hn Hstart.
  destruct (simulate_path_valid_run norm_cdf RandomState np_random_seed np_random_randn
              S0 K T r sigma call_type n seed g g0 HS0 HK Hsig (or_introl Hc) Hn Hstart)
    as (Ss & A1 & Hrun1 & Hspots1 & _ & Hat1).
  destruct (simulate_path_valid_run norm_cdf RandomState np_random_seed np_random_randn
              S0 K T r sigma put_type n seed g g0 HS0 HK Hsig (or_intror Hp) Hn Hstart)
    as (Ss2 & A2 & Hrun2 & Hspots2 & _ & Hat2).
  rewrite Hspots1 in Hspots2. injection Hspots2 as <-.
  exists (PathResult (grid T n) Ss A1), (PathResult (grid T n) Ss A2),
         (generator_after np_random_randn n g0).
  split; [exact Hrun1 |]. split; [exact Hrun2 |].
  intros i Hi. simpl.
  destruct (Hat1 i Hi) as (Si & HSi & HSipos & Hops1).
  destruct (Hat2 i Hi) as (Si' & HSi' & _ & Hops2).
  assert (Si' = Si) as -> by congruence.
  destruct (Hops1 Price) as (c & Hcall & Harr1).
  destruct (Hops2 Price) as (p & Hput & Harr2).
  simpl in Hcall, Hput, Harr1, Harr2.
  exists Si, c, p. repeat (split; [assumption |]).
  rewrite (parity_over_remaining_time norm_cdf call_type put_type Si K _ r sigma c p
             Hsym Hc Hp HSipos HK Hsig Hcall Hput).
  rewrite py_max_Rmax.
  assert (HnR : 0 < INR n) by (apply lt_0_INR; lia).
  assert (Hrem : T - INR i * (T / INR n) = T * INR (n - i) / INR n).
  { rewrite minus_INR by assumption. field. lra. }
  assert (Hni : 0 <= INR (n - i) / INR n).
  { apply Rmult_le_pos; [apply pos_INR | apply Rlt_le, Rinv_0_lt_compat; assumption]. }
  assert (Hmax : Rmax (T * INR (n - i) / INR n) 0 = T * INR (n - i) / INR n).
  { apply Rmax_left. unfold Rdiv in *. nra. }
  rewrite Hrem, !Hmax. reflexivity.
Qed.

Lemma simulate_path_parity_along_path_witness :
  exists rc rp g',
    simulate_path logistic_cdf counter_seed counter_randn
      100 100 1 0.05 0.2 "call" 20 (Some 42%Z) 7%nat = (Ok rc, g') /\
    simulate_path logistic_cdf counter_seed counter_randn
      100 100 1 0.05 0.2 "put" 20 (Some 42%Z) 7%nat = (Ok rp, g') /\
    exists Si c p,
      spots rc !! 5%nat = Some Si /\ spots rp !! 5%nat = Some Si /\
      price (greeks rc) !! 5%nat = Some c /\
      price (greeks rp) !! 5%nat = Some p /\
      c - p = Si - 100 * exp (- (0.05) * (1 * INR (20 - 5) / INR 20)).
Proof.
  destruct (simulate_path_parity_along_path logistic_cdf nat counter_seed counter_randn
              100 100 1 0.05 0.2 "call" "put" 20 (Some 42%Z) 7%nat 42%nat)
    as (rc & rp & g' & Hrc & Hrp & Hat);
    first [exact logistic_cdf_symmetric | lra | lia | reflexivity | idtac].
  exists rc, rp, g'. split; [exact Hrc |]. split; [exact Hrp |].
  apply (Hat 5%nat). lia.
Defined.

(** X21.  A run with [T = 0]: every time point is 0, the spot never moves from
    [S0], every price is the intrinsic payoff at [S0], and gamma, vega, theta
    and rho are 0 throughout. *)
Theorem simulate_path_zero_maturity
    (norm_cdf : R -> R) (RandomState : Type)
    (np_random_seed : Z -> result RandomState)
    (np_random_randn : RandomState -> R * RandomState)
    (S0 K r sigma : R) (option_type : string) (n : nat) (seed : option Z)
    (g g0 : RandomState) :
  0 < S0 -> 0 < K -> 0 < sigma ->
  is_call option_type = true \/ is_put option_type = true ->
  (1 <= n)%nat ->
  start_state np_random_seed seed g = Ok g0 ->
  exists res g',
    simulate_path norm_cdf np_random_seed np_random_randn
      S0 K 0 r sigma option_type (Z.of_nat n) seed g = (Ok res, g') /\
    forall i, (i <= n)%nat ->
      times res !! i = Some 0 /\
      spots res !! i = Some S0 /\
      price (greeks res) !! i
      = Some (if is_call option_type then Rmax (S0 - K) 0 else Rmax (K - S0) 0) /\
      gamma_arr (greeks res) !! i = Some 0 /\
      vega_arr (greeks res) !! i = Some 0 /\
      theta_arr (greeks res) !! i = Some 0 /\
      rho_arr (greeks res) !! i = Some 0.
Proof.
  intros HS0 HK Hsig Hot Hn Hstart.
  destruct (simulate_path_valid_run norm_cdf RandomState np_random_seed np_random_randn
              S0 K 0 r sigma option_type n seed g g0 HS0 HK Hsig Hot Hn Hstart)
    as (Ss & A & Hrun & Hspots & _ & Hat).
  destruct (spot_path_facts RandomState np_random_randn S0 r sigma (0 / INR n) n g0 HS0)
    as (Ss' & Hspots' & _ & Hfirst & _ & Hrec).
  rewrite Hspots in Hspots'. injection Hspots' as <-.
  assert (Hconst : forall i, (i <= n)%nat -> Ss !! i = Some S0).
  { induction i as [| i IH]; intros Hi; [exact Hfirst |].
    destruct (Hrec i) as (u & Hu & Hnext); [lia |].
    rewrite IH in Hu by lia. injection Hu as <-.
    replace (Datatypes.S i) with (i + 1)%nat by lia. rewrite Hnext.
    f_equal. unfold gbm_step.
    replace (0 / INR n) with 0 by (unfold Rdiv; ring).
    rewrite sqrt_0.
    replace ((r - 0.5 * sigma ^ 2) * 0 + sigma * 0 * draw np_random_randn i g0)
      with 0 by ring.
    rewrite exp_0. ring. }
  exists (PathResult (grid 0 n) Ss A), (generator_after np_random_randn n g0).
  split; [exact Hrun |].
  intros i Hi. simpl.
  split; [rewrite grid_lookup by assumption; f_equal; unfold Rdiv; ring |].
  split; [apply Hconst; assumption |].
  destruct (Hat i Hi) as (Si & HSi & _ & Hops).
  rewrite Hconst in HSi by assumption. injection HSi as <-.
  assert (Hrem : py_max (0 - INR i * (0 / INR n)) 0 = 0).
  { replace (0 - INR i * (0 / INR n)) with 0 by (unfold Rdiv; ring).
    unfold py_max. destruct (Rlt_dec 0 0); reflexivity. }
  rewrite Hrem in Hops.
  assert (H0 : (0 : R) <= 0) by lra.
  destruct (Hops Price) as (p & Hp & Harrp). destruct (Hops Gamma) as (gm & Hg & Harrg).
  destruct (Hops Vega) as (v & Hv & Harrv). destruct (Hops Theta) as (th & Hth & Harrth).
  destruct (Hops Rho) as (rh & Hrh & Harrrh).
  simpl in Hp, Harrp, Hg, Harrg, Hv, Harrv, Hth, Harrth, Hrh, Harrrh.
  rewrite gamma_expired in Hg by assumption.
  rewrite vega_expired in Hv by assumption.
  rewrite theta_expired in Hth by assumption.
  rewrite rho_expired in Hrh by assumption.
  apply Ok_inj in Hg, Hv, Hth, Hrh. subst gm v th rh.
  repeat split; try assumption.
  rewrite Harrp. f_equal.
  destruct (is_call option_type) eqn:Hc.
  - rewrite option_price_expired_call in Hp by assumption.
    apply Ok_inj in Hp. congruence.
  - destruct Hot as [Hc' | Hp']; [congruence |].
    rewrite option_price_expired_put in Hp by assumption.
    apply Ok_inj in Hp. congruence.
Qed.

Lemma simulate_path_zero_maturity_witness :
  exists res g',
    simulate_path logistic_cdf counter_seed counter_randn
      105 100 0 0.05 0.2 "call" 20 None 7%nat = (Ok res, g') /\
    spots res !! 20%nat = Some 105 /\
    price (greeks res) !! 20%nat = Some (Rmax (105 - 100) 0).
Proof.
  destruct (simulate_path_zero_maturity logistic_cdf nat counter_seed counter_randn
              105 100 0.05 0.2 "call" 20 None 7%nat 7%nat)
    as (res & g' & Hrun & Hat);
    first [lra | lia | reflexivity | left; reflexivity | idtac].
  exists res, g'. split; [exact Hrun |].
  destruct (Hat 20%nat) as (_ & Hspot & Hprice & _); [lia |].
  split; [exact Hspot | exact Hprice].
Defined.
